(** * add_files_to_xcode.py: anchored insertions into an Xcode project file

    A shallow embedding of [src/add_files_to_xcode.py] and the properties
    of it that the specification states.

    - Text is a list of characters ([str]); slicing is [take]/[drop].
    - [re.search] is embedded for the fragment of regular expressions the
      script uses: literal characters and the lazy [.*?] under [re.DOTALL].
    - [uuid.uuid4()] draws 128 random bits; the draws are an explicit
      stream held in the world, consumed in program order.
    - File input/output and [print] act on a [World]; every effect is
      recorded in an event log.  The world holds the file as the text the
      script sees, and [open] fails as a whole or not at all: this is the
      level of the steps and of their order.
    - The system calls behind them are the subject of the second part:
      [process] runs the same steps on a [Machine], where reading decodes
      and translates newlines, writing truncates the file first and may
      stop part-way, and [print] and the flush at exit may fail. *)

From Stdlib Require Import Ascii String NArith ZArith Lia.
From stdpp Require Import base list.

Local Open Scope list_scope.
Local Open Scope nat_scope.

(** ** Text *)

Abbreviation str := (list ascii).

Definition lit (s : string) : str := list_ascii_of_string s.

Definition nl : ascii := "010"%char.
Definition tab : ascii := "009"%char.
Definition dquote : ascii := "034"%char.

(** Python's [sep.join(parts)]. *)
Fixpoint join (sep : str) (parts : list str) : str :=
  match parts with
  | [] => []
  | [x] => x
  | x :: rest => x ++ sep ++ join sep rest
  end.

(** [content[:pos] + new + content[pos:]] *)
Definition insert_at (pos : nat) (new content : str) : str :=
  take pos content ++ new ++ drop pos content.

(** ** Regular expressions: the fragment the script uses *)

Inductive atom : Type :=
| Chr (c : ascii)      (* a literal (possibly escaped) character *)
| LazyAny.             (* [.*?] compiled with re.DOTALL *)

Abbreviation regex := (list atom).

Definition literal (s : string) : regex := map Chr (lit s).

Record Match : Type := mkMatch { m_start : nat; m_end : nat }.

(** Backtracking match of [pat] at the head of the text; the result is
    the length of the match.  [LazyAny] first tries to consume nothing
    and extends one character at a time. *)
Fixpoint match_here (pat : regex) : str -> option nat :=
  match pat with
  | [] => fun _ => Some 0
  | Chr c :: pat' => fun d =>
      match d with
      | b :: d' => if Ascii.eqb c b then S <$> match_here pat' d' else None
      | [] => None
      end
  | LazyAny :: pat' =>
      fix lazy (d : str) : option nat :=
        match match_here pat' d with
        | Some n => Some n
        | None => match d with
                  | [] => None
                  | _ :: d' => S <$> lazy d'
                  end
        end
  end.

(** Leftmost match, scanning start positions from [off] on. *)
Fixpoint search_from (pat : regex) (off : nat) (d : str) : option Match :=
  match match_here pat d with
  | Some n => Some (mkMatch off (off + n))
  | None => match d with
            | [] => None
            | _ :: d' => search_from pat (S off) d'
            end
  end.

(** [re.search(pattern, content)] *)
Definition re_search (pat : regex) (content : str) : option Match :=
  search_from pat 0 content.

(** ** The four anchor patterns *)

Definition file_ref_pattern : regex :=
  literal "FF1A4CE429A1A2D000000123 /* ProfileView.swift */"
  ++ [LazyAny]
  ++ literal "sourceTree = " ++ [Chr dquote] ++ literal "<group>"
  ++ [Chr dquote] ++ literal ";".

Definition group_pattern : regex :=
  literal "B6A2F53817229565D50548F7 /* EventPhotosViewModel.swift */,".

Definition sources_pattern : regex :=
  literal "FF1A4CE429A1A2D000000224 /* ProfileView.swift in Sources */,".

Definition build_file_pattern : regex :=
  literal "/* Begin PBXBuildFile section */".

(** ** Identifiers: [str(uuid.uuid4()).replace('-', '').upper()[:24]] *)

Local Open Scope N_scope.

(** [uuid.uuid4()]: 16 random bytes as a 128-bit integer, with the
    variant bits set to RFC 4122 and the version nibble set to 4. *)
Definition uuid4 (random : N) : N :=
  let int := random mod 2 ^ 128 in
  let int := N.ldiff int (N.shiftl 0xc000 48) in
  let int := N.lor int (N.shiftl 0x8000 48) in
  let int := N.ldiff int (N.shiftl 0xf000 64) in
  N.lor int (N.shiftl 4 76).

Definition hex_digit (k : N) : ascii :=
  nth (N.to_nat k) (lit "0123456789abcdef") "0"%char.

(** ['%032x' % int] for an integer below [2 ^ 128]. *)
Definition hex32 (int : N) : str :=
  map (fun i : nat => hex_digit ((int / 16 ^ N.of_nat (31 - i)) mod 16))
      (seq 0 32).

(** [str(u)] for a UUID [u]: the groups 8-4-4-4-12 joined by hyphens. *)
Definition uuid_str (int : N) : str :=
  let hex := hex32 int in
  join (lit "-")
    [take 8 hex; take 4 (drop 8 hex); take 4 (drop 12 hex);
     take 4 (drop 16 hex); drop 20 hex].

Local Close Scope N_scope.

(** [s.replace(c, '')] for a one-character [c]. *)
Definition remove_char (c : ascii) (s : str) : str :=
  List.filter (fun b => negb (Ascii.eqb b c)) s.

Definition upper_char (c : ascii) : ascii :=
  let n := nat_of_ascii c in
  if (97 <=? n) && (n <=? 122) then ascii_of_nat (n - 32) else c.

Definition upper (s : str) : str := map upper_char s.

Definition new_id (random : N) : str :=
  take 24 (upper (remove_char "-"%char (uuid_str (uuid4 random)))).

Definition is_upper_hex (c : ascii) : bool :=
  let n := nat_of_ascii c in
  ((48 <=? n) && (n <=? 57)) || ((65 <=? n) && (n <=? 70)).


(** ** The world the script runs in *)

(** The unhandled [OSError]s of [open]. *)
Inductive Exn : Type :=
| FileNotFoundError
| PermissionError.

Inductive Result (A : Type) : Type :=
| Ok (a : A)
| Raise (e : Exn).
Arguments Ok {A} a.
Arguments Raise {A} e.

Inductive Event : Type :=
| EvRead (content : str)
| EvUuid (random : N)
| EvWrite (content : str)
| EvPrint (line : str).

Record World : Type := mkWorld {
  fs_file : option str;      (* project.pbxproj; [None]: it cannot be read *)
  fs_writable : bool;        (* whether [open(..., 'w')] succeeds *)
  urandom : nat -> N;        (* the random draws, in the order they are made *)
  drawn : nat;               (* how many draws have been consumed *)
  events : list Event        (* the effects performed so far, oldest first *)
}.

Definition M (A : Type) : Type := World -> Result A * World.

Definition ret {A} (a : A) : M A := fun w => (Ok a, w).

Definition bind {A B} (m : M A) (k : A -> M B) : M B :=
  fun w => match m w with
           | (Ok a, w') => k a w'
           | (Raise e, w') => (Raise e, w')
           end.

Notation "'let!' x ':=' c1 'in' c2" := (bind c1 (fun x => c2))
  (at level 10, x name, c1 at level 100, c2 at level 200).

Definition log (e : Event) (w : World) : World :=
  mkWorld (fs_file w) (fs_writable w) (urandom w) (drawn w) (events w ++ [e]).

(** [with open(path, 'r') as f: content = f.read()], at the level of text:
    [fs_file] is the text that [read()] returns.  Decoding and newline
    translation are in [open_read] below. *)
Definition read_file : M str := fun w =>
  match fs_file w with
  | Some content => (Ok content, log (EvRead content) w)
  | None => (Raise FileNotFoundError, w)
  end.

(** [with open(path, 'w') as f: f.write(content)], at the level of text:
    the open is refused or the whole text is stored.  Truncation and a
    write that stops part-way are in [open_write] below. *)
Definition write_file (content : str) : M unit := fun w =>
  if fs_writable w
  then (Ok tt, mkWorld (Some content) (fs_writable w) (urandom w) (drawn w)
                       (events w ++ [EvWrite content]))
  else (Raise PermissionError, w).

(** [str(uuid.uuid4()).replace('-', '').upper()[:24]] on the next draw. *)
Definition fresh_id : M str := fun w =>
  let random := urandom w (drawn w) in
  (Ok (new_id random),
   mkWorld (fs_file w) (fs_writable w) (urandom w) (S (drawn w))
           (events w ++ [EvUuid random])).

(** [print(line)] as an event; a [print] that fails is in [print_line]
    below. *)
Definition print (line : str) : M unit := fun w => (Ok tt, log (EvPrint line) w).

(** ** The script *)

Abbreviation entry := (str * str)%type.     (* (filename, file_id) *)

Definition files_to_add_gen : M (list entry) :=
  let! id1 := fresh_id in
  let! id2 := fresh_id in
  let! id3 := fresh_id in
  ret [(lit "BlockedUsersManager.swift", id1);
       (lit "BlockedUsersView.swift", id2);
       (lit "TermsOfService.swift", id3)].

Definition file_ref_line (e : entry) : str :=
  let '(filename, file_id) := e in
  [tab; tab] ++ file_id ++ lit " /* " ++ filename
  ++ lit " */ = {isa = PBXFileReference; lastKnownFileType = sourcecode.swift; path = "
  ++ filename ++ lit "; sourceTree = " ++ [dquote] ++ lit "<group>" ++ [dquote]
  ++ lit "; };".

Definition group_line (e : entry) : str :=
  let '(filename, file_id) := e in
  [tab; tab; tab; tab] ++ file_id ++ lit " /* " ++ filename ++ lit " */,".

Definition build_file_entry (e : entry) (build_id : str) : str :=
  let '(filename, file_id) := e in
  [tab; tab] ++ build_id ++ lit " /* " ++ filename
  ++ lit " in Sources */ = {isa = PBXBuildFile; fileRef = " ++ file_id
  ++ lit " /* " ++ filename ++ lit " */; };".

Definition sources_line (e : entry) (build_id : str) : str :=
  let '(filename, _) := e in
  [tab; tab; tab; tab] ++ build_id ++ lit " /* " ++ filename ++ lit " in Sources */,".

(** Lines 16-28: the PBXFileReference entries. *)
Definition add_file_refs (files_to_add : list entry) (content : str) : str :=
  match re_search file_ref_pattern content with
  | Some file_ref_match =>
      let new_file_refs := map file_ref_line files_to_add in
      let insert_pos := m_end file_ref_match in
      insert_at insert_pos ([nl] ++ join [nl] new_file_refs) content
  | None => content
  end.

(** Lines 30-41: the PBXGroup children. *)
Definition add_group_refs (files_to_add : list entry) (content : str) : str :=
  match re_search group_pattern content with
  | Some group_match =>
      let new_group_refs := map group_line files_to_add in
      let insert_pos := m_end group_match in
      insert_at insert_pos ([nl] ++ join [nl] new_group_refs) content
  | None => content
  end.

(** Lines 55-60: one PBXBuildFile entry, after the section header as found
    in the current content. *)
Definition add_build_file (line : str) (content : str) : str :=
  match re_search build_file_pattern content with
  | Some build_file_match =>
      let insert_pos := m_end build_file_match in
      insert_at insert_pos ([nl] ++ line) content
  | None => content
  end.

(** Lines 50-63: the loop over the entries. *)
Fixpoint build_loop (files : list entry) (content : str)
    (new_build_refs : list str) : M (str * list str) :=
  match files with
  | [] => ret (content, new_build_refs)
  | e :: rest =>
      let! build_id := fresh_id in
      let content := add_build_file (build_file_entry e build_id) content in
      build_loop rest content (new_build_refs ++ [sources_line e build_id])
  end.

(** Lines 43-66: the PBXSourcesBuildPhase step.  [sources_match] is taken
    before the loop and its end offset is used after it. *)
Definition add_build_refs (files_to_add : list entry) (content : str) : M str :=
  match re_search sources_pattern content with
  | Some sources_match =>
      let! r := build_loop files_to_add content [] in
      let '(content, new_build_refs) := r in
      let insert_pos := m_end sources_match in
      ret (insert_at insert_pos ([nl] ++ join [nl] new_build_refs) content)
  | None => ret content
  end.

Definition confirmation_line (e : entry) : str :=
  let '(filename, file_id) := e in
  lit "  - " ++ filename ++ lit " (" ++ file_id ++ lit ")".

Fixpoint print_files (files : list entry) : M unit :=
  match files with
  | [] => ret tt
  | e :: rest => let! _ := print (confirmation_line e) in print_files rest
  end.

Definition confirmation_header : str :=
  lit "Successfully added files to Xcode project:".

Definition main : M unit :=
  let! content := read_file in
  let! files_to_add := files_to_add_gen in
  let content := add_file_refs files_to_add content in
  let content := add_group_refs files_to_add content in
  let! content := add_build_refs files_to_add content in
  let! _ := write_file content in
  let! _ := print confirmation_header in
  print_files files_to_add.

(** What the run left on standard output. *)
Definition stdout (w : World) : list str :=
  omap (fun e => match e with EvPrint l => Some l | _ => None end) (events w).

Definition is_write (e : Event) : bool :=
  match e with EvWrite _ => true | _ => false end.


(** * Text lemmas *)

Section Text.

(** [p] occurs in [d] at offset [i]. *)
Definition occ (p : str) (i : nat) (d : str) : Prop :=
  forall k c, p !! k = Some c -> d !! (i + k) = Some c.

Lemma occ_prefix (p d : str) : occ p 0 d <-> exists rest, d = p ++ rest.
Proof.
  unfold occ. revert d. induction p as [|a p IH]; intros d.
  - split; [intros _; exists d; reflexivity | intros _ k c H; discriminate].
  - split.
    + intros H. destruct d as [|b d].
      * specialize (H 0 a eq_refl). discriminate.
      * pose proof (H 0 a eq_refl) as H0. simpl in H0. injection H0 as ->.
        destruct (proj1 (IH d)) as [rest ->].
        { intros k c Hk. apply (H (S k) c Hk). }
        exists rest. reflexivity.
    + intros [rest ->] k c Hk. change (0 + k) with k.
      rewrite lookup_app_l; [exact Hk|].
      apply lookup_lt_Some in Hk. exact Hk.
Qed.

Lemma occ_drop (p : str) (i : nat) (d : str) : occ p i d <-> occ p 0 (drop i d).
Proof.
  unfold occ. split; intros H k c Hk.
  - rewrite lookup_drop. simpl. apply H, Hk.
  - specialize (H k c Hk). rewrite lookup_drop in H. exact H.
Qed.

Lemma occ_to_drop (p : str) (i : nat) (d : str) : occ p i d -> occ p 0 (drop i d).
Proof. apply occ_drop. Qed.

Lemma occ_of_drop (p : str) (i : nat) (d : str) : occ p 0 (drop i d) -> occ p i d.
Proof. apply occ_drop. Qed.

Lemma occ_split (p : str) (i : nat) (d : str) :
  occ p i d -> p <> [] ->
  d = take i d ++ p ++ drop (i + length p) d /\ i + length p <= length d.
Proof.
  intros H Hne.
  pose proof (proj1 (occ_drop p i d) H) as H0.
  apply occ_prefix in H0 as [rest Hrest].
  assert (Hlen : i + length p <= length d).
  { assert (length (drop i d) = length p + length rest)
      by (rewrite Hrest, length_app; reflexivity).
    rewrite length_drop in H0. destruct p; [congruence|]. simpl in *. lia. }
  split; [|exact Hlen].
  rewrite <- (take_drop i d) at 1. f_equal.
  rewrite <- drop_drop, Hrest, drop_app_length. reflexivity.
Qed.

Lemma occ_app (pre p post : str) : occ p (length pre) (pre ++ p ++ post).
Proof.
  apply occ_drop. rewrite drop_app_length. apply occ_prefix. eauto.
Qed.

Lemma occ_bound (p : str) (i : nat) (d : str) :
  occ p i d -> p <> [] -> i + length p <= length d.
Proof. intros H Hne. apply (occ_split p i d H Hne). Qed.

(** Reading through an insertion. *)
Lemma lookup_insert_at (q : nat) (t d : str) (k : nat) :
  q <= length d ->
  insert_at q t d !! k =
    if decide (k < q) then d !! k
    else if decide (k < q + length t) then t !! (k - q)
    else d !! (k - length t).
Proof.
  intros Hq. unfold insert_at.
  assert (Htake : length (take q d) = q) by (rewrite length_take; lia).
  destruct (decide (k < q)).
  - rewrite lookup_app_l by lia. apply lookup_take_lt. lia.
  - rewrite lookup_app_r by lia. rewrite Htake.
    destruct (decide (k < q + length t)).
    + rewrite lookup_app_l by lia. reflexivity.
    + rewrite lookup_app_r by lia. rewrite lookup_drop. f_equal. lia.
Qed.

Lemma length_insert_at (q : nat) (t d : str) :
  length (insert_at q t d) = length t + length d.
Proof.
  unfold insert_at. rewrite !length_app, length_take, length_drop. lia.
Qed.

(** An occurrence that the insertion point does not cut survives. *)
Lemma occ_insert_after (p : str) (i q : nat) (t d : str) :
  occ p i d -> q <= length d -> i + length p <= q ->
  occ p i (insert_at q t d).
Proof.
  intros H Hq Hi k c Hk. rewrite lookup_insert_at by exact Hq.
  pose proof (lookup_lt_Some _ _ _ Hk).
  destruct (decide (i + k < q)); [|lia]. apply H, Hk.
Qed.

Lemma occ_insert_before (p : str) (i q : nat) (t d : str) :
  occ p i d -> q <= length d -> q <= i ->
  occ p (i + length t) (insert_at q t d).
Proof.
  intros H Hq Hi k c Hk. rewrite lookup_insert_at by exact Hq.
  destruct (decide (i + length t + k < q)); [lia|].
  destruct (decide (i + length t + k < q + length t)); [lia|].
  replace (i + length t + k - length t) with (i + k) by lia. apply H, Hk.
Qed.

(** Conversely, an occurrence in the new text that does not touch the
    inserted block was there before. *)
Lemma occ_insert_inv_left (p : str) (i q : nat) (t d : str) :
  occ p i (insert_at q t d) -> q <= length d -> i + length p <= q ->
  occ p i d.
Proof.
  intros H Hq Hi k c Hk. pose proof (lookup_lt_Some _ _ _ Hk).
  specialize (H k c Hk). rewrite lookup_insert_at in H by exact Hq.
  destruct (decide (i + k < q)); [exact H|lia].
Qed.

Lemma occ_insert_inv_right (p : str) (i q : nat) (t d : str) :
  occ p i (insert_at q t d) -> q <= length d -> q + length t <= i ->
  occ p (i - length t) d.
Proof.
  intros H Hq Hi k c Hk.
  specialize (H k c Hk). rewrite lookup_insert_at in H by exact Hq.
  destruct (decide (i + k < q)); [lia|].
  destruct (decide (i + k < q + length t)); [lia|].
  replace (i - length t + k) with (i + k - length t) by lia. exact H.
Qed.

End Text.

(** * The regular-expression fragment *)

Section Regex.

Lemma match_here_lit_app (p : str) (pat : regex) (d : str) (n : nat) :
  match_here (map Chr p ++ pat) d = Some n <->
  exists rest n', d = p ++ rest /\ match_here pat rest = Some n'
                  /\ n = length p + n'.
Proof.
  revert d n. induction p as [|a p IH]; intros d n.
  - simpl. split.
    + intros H. exists d, n. auto.
    + intros (rest & n' & -> & H & ->). exact H.
  - simpl. destruct d as [|b d].
    + split; [discriminate|]. intros (rest & n' & H & _). discriminate.
    + destruct (Ascii.eqb_spec a b) as [->|Hne].
      * destruct (match_here (map Chr p ++ pat) d) as [n0|] eqn:E; simpl.
        -- apply IH in E as (rest & n' & -> & H & ->). split.
           ++ intros [= <-]. exists rest, n'. auto.
           ++ intros (rest' & n'' & Heq & H' & ->).
              injection Heq as Heq. apply app_inv_head in Heq. subst rest'.
              congruence.
        -- split; [discriminate|].
           intros (rest & n' & Heq & H & ->). injection Heq as ->.
           assert (match_here (map Chr p ++ pat) (p ++ rest)
                   = Some (length p + n')) as E'
             by (apply IH; eauto).
           congruence.
      * split; [discriminate|].
        intros (rest & n' & Heq & _). injection Heq as -> _. congruence.
Qed.

Lemma match_here_lit_Some (p d : str) (n : nat) :
  match_here (map Chr p) d = Some n <-> n = length p /\ occ p 0 d.
Proof.
  rewrite <- (app_nil_r (map Chr p)), match_here_lit_app, occ_prefix.
  split.
  - intros (rest & n' & -> & [= <-] & ->). split; [lia|eauto].
  - intros (-> & rest & ->). exists rest, 0. simpl. auto with lia.
Qed.

Lemma match_here_lit_None (p d : str) :
  match_here (map Chr p) d = None <-> ~ occ p 0 d.
Proof.
  destruct (match_here (map Chr p) d) as [n|] eqn:E.
  - apply match_here_lit_Some in E as [_ E]. split; [discriminate|tauto].
  - split; [|reflexivity]. intros _ H.
    assert (match_here (map Chr p) d = Some (length p))
      by (apply match_here_lit_Some; auto).
    congruence.
Qed.

Lemma match_here_lazy (pat : regex) (d : str) (n : nat) :
  match_here (LazyAny :: pat) d = Some n <->
  exists j n', j <= length d /\ match_here pat (drop j d) = Some n'
               /\ n = j + n'
               /\ forall j', j' < j -> match_here pat (drop j' d) = None.
Proof.
  revert n. induction d as [|b d IH]; intros n.
  - simpl. destruct (match_here pat []) as [n0|] eqn:E.
    + split.
      * intros [= <-]. exists 0, n0. simpl. repeat split; auto with lia.
      * intros (j & n' & Hj & H & -> & _). simpl in Hj.
        assert (j = 0) as -> by lia. simpl in *. congruence.
    + split; [discriminate|].
      intros (j & n' & Hj & H & _). rewrite drop_nil in H. congruence.
  - simpl. destruct (match_here pat (b :: d)) as [n0|] eqn:E.
    + split.
      * intros [= <-]. exists 0, n0. simpl. repeat split; auto with lia.
      * intros (j & n' & Hj & H & -> & Hmin).
        destruct j as [|j]; [simpl in *; congruence|].
        specialize (Hmin 0 ltac:(lia)). simpl in Hmin. congruence.
    + change ((fix lazy (d0 : str) : option nat :=
                 match match_here pat d0 with
                 | Some n1 => Some n1
                 | None => match d0 with
                           | [] => None
                           | _ :: d' => S <$> lazy d'
                           end
                 end) d) with (match_here (LazyAny :: pat) d).
      destruct (match_here (LazyAny :: pat) d) as [n1|] eqn:E1 in |- *; simpl.
      * apply IH in E1 as (j & n' & Hj & H & -> & Hmin). split.
        -- intros [= <-]. exists (S j), n'. simpl. repeat split; auto with lia.
           intros [|j'] Hlt; simpl; [exact E|]. apply Hmin. lia.
        -- intros (j0 & n0 & Hj0 & H0 & -> & Hmin0).
           destruct j0 as [|j0]; [simpl in H0; congruence|]. simpl in H0.
           destruct (lt_eq_lt_dec j j0) as [[Hlt| ->]|Hlt].
           ++ specialize (Hmin0 (S j) ltac:(lia)). simpl in Hmin0. congruence.
           ++ f_equal. assert (n' = n0) by congruence. lia.
           ++ specialize (Hmin j0 Hlt). congruence.
      * split; [discriminate|].
        intros (j0 & n0 & Hj0 & H0 & -> & Hmin0).
        destruct j0 as [|j0]; [simpl in H0; congruence|]. simpl in H0, Hj0.
        assert (exists n2, match_here (LazyAny :: pat) d = Some n2) as [n2 Hn2].
        { exists (j0 + n0). apply IH. exists j0, n0. repeat split; auto with lia.
          intros j' Hlt. apply (Hmin0 (S j')). lia. }
        congruence.
Qed.

Lemma search_from_Some (pat : regex) (off : nat) (d : str) (m : Match) :
  search_from pat off d = Some m <->
  exists i n, i <= length d /\ match_here pat (drop i d) = Some n
              /\ m = mkMatch (off + i) (off + i + n)
              /\ forall j, j < i -> match_here pat (drop j d) = None.
Proof.
  revert off. induction d as [|b d IH]; intros off.
  - simpl. destruct (match_here pat []) as [n0|] eqn:E.
    + split.
      * intros [= <-]. exists 0, n0. rewrite Nat.add_0_r.
        repeat split; auto with lia.
      * intros (i & n & Hi & H & -> & _). simpl in Hi.
        assert (i = 0) as -> by lia. simpl in H. rewrite Nat.add_0_r.
        congruence.
    + split; [discriminate|].
      intros (i & n & _ & H & _). rewrite drop_nil in H. congruence.
  - simpl. destruct (match_here pat (b :: d)) as [n0|] eqn:E.
    + split.
      * intros [= <-]. exists 0, n0. rewrite Nat.add_0_r.
        repeat split; auto with lia.
      * intros (i & n & Hi & H & -> & Hmin).
        destruct i as [|i].
        -- simpl in H. rewrite Nat.add_0_r. congruence.
        -- specialize (Hmin 0 ltac:(lia)). simpl in Hmin. congruence.
    + rewrite IH. split.
      * intros (i & n & Hi & H & -> & Hmin). exists (S i), n.
        simpl. split; [lia|]. split; [exact H|]. split; [f_equal; lia|].
        intros [|j] Hlt; simpl; [exact E|]. apply Hmin. lia.
      * intros (i & n & Hi & H & -> & Hmin).
        destruct i as [|i]; [simpl in H; congruence|].
        exists i, n. simpl in Hi, H.
        split; [lia|]. split; [exact H|]. split; [f_equal; lia|].
        intros j Hlt. apply (Hmin (S j)). lia.
Qed.

Lemma search_from_None (pat : regex) (off : nat) (d : str) :
  search_from pat off d = None <->
  forall j, j <= length d -> match_here pat (drop j d) = None.
Proof.
  revert off. induction d as [|b d IH]; intros off.
  - simpl. destruct (match_here pat []) as [n0|] eqn:E.
    + split; [discriminate|]. intros H. specialize (H 0 ltac:(lia)).
      simpl in H. congruence.
    + split; [|reflexivity]. intros _ j _. rewrite drop_nil. exact E.
  - simpl. destruct (match_here pat (b :: d)) as [n0|] eqn:E.
    + split; [discriminate|]. intros H. specialize (H 0 ltac:(lia)).
      simpl in H. congruence.
    + rewrite IH. split.
      * intros H [|j] Hj; simpl; [exact E|]. apply H. simpl in Hj. lia.
      * intros H j Hj. apply (H (S j)). simpl. lia.
Qed.

(** [re.search] of a literal: the leftmost occurrence. *)
Lemma re_search_lit_Some (p d : str) (m : Match) :
  p <> [] ->
  re_search (map Chr p) d = Some m <->
  occ p (m_start m) d /\ m_end m = m_start m + length p
  /\ forall j, j < m_start m -> ~ occ p j d.
Proof.
  intros Hne. unfold re_search. rewrite search_from_Some. split.
  - intros (i & n & Hi & H & -> & Hmin). simpl.
    apply match_here_lit_Some in H as [-> H].
    split; [apply occ_of_drop, H|]. split; [reflexivity|].
    intros j Hj Hocc. specialize (Hmin j Hj).
    apply match_here_lit_None in Hmin. apply Hmin, occ_to_drop, Hocc.
  - destruct m as [i e]. simpl. intros (Hocc & -> & Hmin).
    exists i, (length p). split; [pose proof (occ_bound p i d Hocc Hne); lia|].
    split; [apply match_here_lit_Some; split; [reflexivity|apply occ_to_drop, Hocc]|].
    split; [reflexivity|].
    intros j Hj. apply match_here_lit_None. intros H.
    apply (Hmin j Hj), occ_of_drop, H.
Qed.

Lemma re_search_lit_None (p d : str) :
  re_search (map Chr p) d = None <-> forall j, ~ occ p j d.
Proof.
  unfold re_search. rewrite search_from_None. split.
  - intros H j Hocc. destruct (decide (j <= length d)) as [Hj|Hj].
    + specialize (H j Hj). apply match_here_lit_None in H.
      apply H, occ_to_drop, Hocc.
    + specialize (H (length d) ltac:(lia)). apply match_here_lit_None in H.
      apply H. apply occ_to_drop in Hocc.
      rewrite drop_ge in Hocc by lia. rewrite drop_all. exact Hocc.
  - intros H j _. apply match_here_lit_None. intros Hocc.
    apply (H j), occ_of_drop, Hocc.
Qed.

Lemma re_search_lit_found (p d : str) (i : nat) :
  p <> [] -> occ p i d ->
  exists m, re_search (map Chr p) d = Some m /\ m_start m <= i.
Proof.
  intros Hne Hocc. destruct (re_search (map Chr p) d) as [m|] eqn:E.
  - exists m. split; [reflexivity|].
    apply re_search_lit_Some in E as (_ & _ & Hmin); [|exact Hne].
    destruct (decide (m_start m <= i)); [assumption|].
    exfalso. apply (Hmin i); [lia|exact Hocc].
  - exfalso. exact (proj1 (re_search_lit_None p d) E i Hocc).
Qed.

(** [re.search] of [p.*?s]: where the match ends. *)
Lemma re_search_lazy_Some (p s d : str) (m : Match) :
  s <> [] ->
  re_search (map Chr p ++ LazyAny :: map Chr s) d = Some m ->
  occ p (m_start m) d
  /\ m_start m + length p + length s <= m_end m <= length d
  /\ occ s (m_end m - length s) d.
Proof.
  intros Hne. unfold re_search. rewrite search_from_Some.
  intros (i & n & Hi & H & -> & _). simpl.
  apply match_here_lit_app in H as (rest & n' & Hrest & H & ->).
  apply match_here_lazy in H as (j & n'' & Hj & H & -> & _).
  apply match_here_lit_Some in H as [-> H].
  assert (Hp : occ p i d) by (apply occ_of_drop, occ_prefix; eauto).
  assert (Hs : occ s (i + length p + j) d).
  { apply occ_of_drop.
    replace (drop (i + length p + j) d) with (drop j rest); [exact H|].
    replace (i + length p + j) with (i + (length p + j)) by lia.
    rewrite <- !drop_drop, Hrest, drop_app_length. reflexivity. }
  split; [exact Hp|].
  pose proof (occ_bound s _ d Hs Hne).
  split; [lia|].
  replace (i + (length p + (j + length s)) - length s)
    with (i + length p + j) by lia.
  exact Hs.
Qed.

End Regex.

(** * What a run does *)

(** The anchor texts behind the four patterns. *)
Definition file_ref_head : str :=
  lit "FF1A4CE429A1A2D000000123 /* ProfileView.swift */".
Definition file_ref_tail : str :=
  lit "sourceTree = " ++ [dquote] ++ lit "<group>" ++ [dquote] ++ lit ";".
Definition group_anchor : str :=
  lit "B6A2F53817229565D50548F7 /* EventPhotosViewModel.swift */,".
Definition sources_anchor : str :=
  lit "FF1A4CE429A1A2D000000224 /* ProfileView.swift in Sources */,".
Definition build_file_header : str :=
  lit "/* Begin PBXBuildFile section */".

(** The identifier made from the [i]-th draw of this run. *)
Definition draw (w : World) (i : nat) : str := new_id (urandom w (i + drawn w)).

(** The entries of this run: the first three draws. *)
Definition files_of (w : World) : list entry :=
  [(lit "BlockedUsersManager.swift", draw w 0);
   (lit "BlockedUsersView.swift", draw w 1);
   (lit "TermsOfService.swift", draw w 2)].

(** Entries paired with the build identifiers drawn for them. *)
Fixpoint jobs_from (r : nat -> N) (k : nat) (files : list entry)
  : list (entry * str) :=
  match files with
  | [] => []
  | e :: rest => (e, new_id (r k)) :: jobs_from r (S k) rest
  end.

Definition build_step (content : str) (job : entry * str) : str :=
  add_build_file (build_file_entry (fst job) (snd job)) content.

Definition loop_content (jobs : list (entry * str)) (content : str) : str :=
  fold_left build_step jobs content.

Definition loop_refs (jobs : list (entry * str)) : list str :=
  map (fun job => sources_line (fst job) (snd job)) jobs.

Definition uuid_events (r : nat -> N) (k n : nat) : list Event :=
  map (fun i => EvUuid (r i)) (seq k n).

(** The build identifiers of this run: the fourth to sixth draws. *)
Definition jobs_of (w : World) : list (entry * str) :=
  jobs_from (urandom w) (3 + drawn w) (files_of w).

(** The content after the first two steps. *)
Definition before_sources (w : World) (d : str) : str :=
  add_group_refs (files_of w) (add_file_refs (files_of w) d).

(** The content the run hands to [write]. *)
Definition patched (w : World) (d : str) : str :=
  let content := before_sources w d in
  match re_search sources_pattern content with
  | Some sources_match =>
      insert_at (m_end sources_match)
                ([nl] ++ join [nl] (loop_refs (jobs_of w)))
                (loop_content (jobs_of w) content)
  | None => content
  end.

(** How many identifiers the run draws. *)
Definition draws_made (w : World) (d : str) : nat :=
  match re_search sources_pattern (before_sources w d) with
  | Some _ => 6
  | None => 3
  end.

Definition confirmation (w : World) : list str :=
  confirmation_header :: map confirmation_line (files_of w).

(** The events of a run, up to the write and from it on. *)
Definition events_before_write (w : World) (d : str) : list Event :=
  [EvRead d] ++ uuid_events (urandom w) (drawn w) (draws_made w d).

Definition events_from_write (w : World) (d : str) : list Event :=
  [EvWrite (patched w d)] ++ map EvPrint (confirmation w).

Section Run.

Lemma bind_ok {A B} (m : M A) (k : A -> M B) (w w' : World) (a : A) :
  m w = (Ok a, w') -> bind m k w = k a w'.
Proof. intros H. unfold bind. rewrite H. reflexivity. Qed.

Lemma bind_raise {A B} (m : M A) (k : A -> M B) (w w' : World) (e : Exn) :
  m w = (Raise e, w') -> bind m k w = (Raise e, w').
Proof. intros H. unfold bind. rewrite H. reflexivity. Qed.

Lemma files_to_add_gen_run (w : World) :
  files_to_add_gen w =
  (Ok (files_of w),
   mkWorld (fs_file w) (fs_writable w) (urandom w) (3 + drawn w)
           (events w ++ uuid_events (urandom w) (drawn w) 3)).
Proof.
  unfold files_to_add_gen, bind, fresh_id, ret, uuid_events, files_of, draw.
  cbn [fst snd fs_file fs_writable urandom drawn events map seq Nat.add].
  rewrite <- !app_assoc. reflexivity.
Qed.

Lemma files_of_log (e : Event) (w : World) : files_of (log e w) = files_of w.
Proof. unfold files_of, draw, log. cbn [urandom drawn]. reflexivity. Qed.

Lemma build_step_pair (content : str) (e : entry) (build_id : str) :
  build_step content (e, build_id)
  = add_build_file (build_file_entry e build_id) content.
Proof. unfold build_step. cbn [fst snd]. reflexivity. Qed.

Lemma build_loop_run (files : list entry) :
  forall (content : str) (refs : list str) (w : World),
    build_loop files content refs w =
    (Ok (loop_content (jobs_from (urandom w) (drawn w) files) content,
         refs ++ loop_refs (jobs_from (urandom w) (drawn w) files)),
     mkWorld (fs_file w) (fs_writable w) (urandom w)
             (length files + drawn w)
             (events w ++ uuid_events (urandom w) (drawn w) (length files))).
Proof.
  induction files as [|e rest IH]; intros content refs w.
  - simpl. unfold ret, uuid_events. simpl. rewrite !app_nil_r.
    destruct w; reflexivity.
  - cbn [build_loop jobs_from length]. unfold bind at 1. unfold fresh_id at 1.
    rewrite IH. cbn [fs_file fs_writable urandom drawn events].
    unfold loop_content, loop_refs, uuid_events.
    cbn [fold_left map seq fst snd Nat.add]. rewrite build_step_pair.
    rewrite <- !app_assoc. cbn [app].
    replace (length rest + S (drawn w)) with (S (length rest + drawn w)) by lia.
    reflexivity.
Qed.

Lemma print_files_run (files : list entry) (w : World) :
  print_files files w =
  (Ok tt, mkWorld (fs_file w) (fs_writable w) (urandom w) (drawn w)
                  (events w ++ map EvPrint (map confirmation_line files))).
Proof.
  revert w. induction files as [|e rest IH]; intros w.
  - simpl. unfold ret. rewrite app_nil_r. destruct w; reflexivity.
  - simpl. unfold bind, print, log. rewrite IH. simpl.
    rewrite <- app_assoc. reflexivity.
Qed.

Lemma add_build_refs_run (files : list entry) (content : str) (w : World) :
  add_build_refs files content w =
  match re_search sources_pattern content with
  | Some sources_match =>
      let jobs := jobs_from (urandom w) (drawn w) files in
      (Ok (insert_at (m_end sources_match)
                     ([nl] ++ join [nl] (loop_refs jobs))
                     (loop_content jobs content)),
       mkWorld (fs_file w) (fs_writable w) (urandom w)
               (length files + drawn w)
               (events w ++ uuid_events (urandom w) (drawn w) (length files)))
  | None => (Ok content, w)
  end.
Proof.
  unfold add_build_refs.
  destruct (re_search sources_pattern content) as [sm|]; [|reflexivity].
  erewrite bind_ok by apply build_loop_run. reflexivity.
Qed.

(** The world in which the script reaches [open(..., 'w')]. *)
Definition world_at_write (w : World) (d : str) : World :=
  mkWorld (fs_file w) (fs_writable w) (urandom w) (draws_made w d + drawn w)
          (events w ++ events_before_write w d).

Lemma main_to_write (w : World) (d : str) :
  fs_file w = Some d ->
  main w =
  (let! _ := write_file (patched w d) in
   let! _ := print confirmation_header in
   print_files (files_of w)) (world_at_write w d).
Proof.
  intros Hf. unfold main.
  erewrite bind_ok; [|unfold read_file; rewrite Hf; reflexivity].
  erewrite bind_ok by apply files_to_add_gen_run.
  rewrite files_of_log.
  fold (before_sources w d).
  unfold bind at 1. rewrite add_build_refs_run.
  unfold patched, world_at_write, events_before_write, draws_made, jobs_of.
  cbn [fs_file fs_writable urandom drawn events log].
  destruct (re_search sources_pattern (before_sources w d)) as [sm|].
  - cbv zeta. cbn [length files_of].
    replace (events w ++ [EvRead d] ++ uuid_events (urandom w) (drawn w) 6)
      with ((events w ++ [EvRead d]) ++ uuid_events (urandom w) (drawn w) 3
            ++ uuid_events (urandom w) (3 + drawn w) 3).
    + rewrite <- !app_assoc. reflexivity.
    + unfold uuid_events. cbn [seq map]. rewrite <- !app_assoc. reflexivity.
  - rewrite <- !app_assoc. reflexivity.
Qed.

Lemma main_ok (w : World) (d : str) :
  fs_file w = Some d -> fs_writable w = true ->
  main w = (Ok tt, mkWorld (Some (patched w d)) true (urandom w)
                           (draws_made w d + drawn w)
                           (events w ++ events_before_write w d
                                     ++ events_from_write w d)).
Proof.
  intros Hf Hw. rewrite (main_to_write w d Hf).
  unfold bind at 1. unfold write_file, world_at_write.
  cbn [fs_file fs_writable urandom drawn events]. rewrite Hw.
  unfold bind, print, log. rewrite print_files_run.
  cbn [fs_file fs_writable urandom drawn events].
  unfold events_from_write, confirmation. cbn [map app].
  rewrite <- !app_assoc. reflexivity.
Qed.

Lemma main_write_fails (w : World) (d : str) :
  fs_file w = Some d -> fs_writable w = false ->
  main w = (Raise PermissionError, world_at_write w d).
Proof.
  intros Hf Hw. rewrite (main_to_write w d Hf).
  apply bind_raise. unfold write_file, world_at_write.
  cbn [fs_file fs_writable urandom drawn events]. rewrite Hw. reflexivity.
Qed.

Lemma main_read_fails (w : World) :
  fs_file w = None -> main w = (Raise FileNotFoundError, w).
Proof.
  intros Hf. unfold main. apply bind_raise. unfold read_file.
  rewrite Hf. reflexivity.
Qed.

End Run.

(** * Identifiers *)

Section Identifiers.

Definition hex_alphabet : str := lit "0123456789abcdef".

Lemma hex_digit_in (k : N) : (k < 16)%N -> In (hex_digit k) hex_alphabet.
Proof.
  intros Hk. unfold hex_digit. apply nth_In.
  change (length hex_alphabet) with 16. lia.
Qed.

Lemma hex32_in (n : N) (c : ascii) : In c (hex32 n) -> In c hex_alphabet.
Proof.
  unfold hex32. rewrite in_map_iff. intros (i & <- & _).
  apply hex_digit_in. apply N.mod_lt. discriminate.
Qed.

Lemma length_hex32 (n : N) : length (hex32 n) = 32.
Proof. reflexivity. Qed.

Lemma remove_char_id (c : ascii) (s : str) :
  (forall b, In b s -> b <> c) -> remove_char c s = s.
Proof.
  unfold remove_char. induction s as [|b s IH]; intros H; [reflexivity|].
  simpl. destruct (Ascii.eqb_spec b c) as [->|Hne].
  - exfalso. apply (H c); [left; reflexivity|reflexivity].
  - simpl. f_equal. apply IH. intros b' Hb'. apply H. right. exact Hb'.
Qed.

Lemma remove_char_app (c : ascii) (s t : str) :
  remove_char c (s ++ t) = remove_char c s ++ remove_char c t.
Proof. apply List.filter_app. Qed.

Lemma hex_alphabet_no_hyphen (b : ascii) : In b hex_alphabet -> b <> "-"%char.
Proof.
  intros Hb ->. revert Hb. unfold hex_alphabet, lit. simpl.
  intuition discriminate.
Qed.

Lemma in_take {A} (x : A) (k : nat) (l : list A) : In x (take k l) -> In x l.
Proof.
  rewrite <- !list_elem_of_In. apply (subseteq_take k l).
Qed.

Lemma in_drop {A} (x : A) (k : nat) (l : list A) : In x (drop k l) -> In x l.
Proof.
  rewrite <- !list_elem_of_In. apply (subseteq_drop k l).
Qed.

Lemma regroup (h : str) :
  take 8 h ++ take 4 (drop 8 h) ++ take 4 (drop 12 h)
  ++ take 4 (drop 16 h) ++ drop 20 h = h.
Proof.
  change 20 with (16 + 4). rewrite <- (drop_drop h 4 16), take_drop.
  change 16 with (12 + 4). rewrite <- (drop_drop h 4 12), take_drop.
  change 12 with (8 + 4). rewrite <- (drop_drop h 4 8), take_drop.
  apply take_drop.
Qed.

(** Stripping the hyphens from [str(u)] gives back the 32 digits. *)
Lemma remove_hyphens (n : N) :
  remove_char "-"%char (uuid_str n) = hex32 n.
Proof.
  unfold uuid_str. cbn [join]. change (lit "-") with ["-"%char].
  assert (Hpart : forall s, (forall b, In b s -> In b (hex32 n)) ->
                            remove_char "-"%char s = s).
  { intros s Hs. apply remove_char_id. intros b Hb.
    apply hex_alphabet_no_hyphen, (hex32_in n), Hs, Hb. }
  rewrite !remove_char_app.
  change (remove_char "-"%char ["-"%char]) with (@nil ascii).
  cbn [app].
  rewrite !Hpart by (intros b Hb;
    repeat (first [apply in_take in Hb | apply in_drop in Hb]); exact Hb).
  apply regroup.
Qed.

Lemma upper_hex_alphabet (c : ascii) :
  In c hex_alphabet -> is_upper_hex (upper_char c) = true.
Proof.
  revert c. apply forallb_forall. vm_compute. reflexivity.
Qed.

Lemma new_id_length (random : N) : length (new_id random) = 24.
Proof.
  unfold new_id. rewrite remove_hyphens. reflexivity.
Qed.

Lemma new_id_upper_hex (random : N) :
  forallb is_upper_hex (new_id random) = true.
Proof.
  unfold new_id. rewrite remove_hyphens. apply forallb_forall.
  intros c Hc. apply in_take in Hc. unfold upper in Hc.
  apply in_map_iff in Hc as (b & <- & Hb).
  apply upper_hex_alphabet, (hex32_in _ _ Hb).
Qed.

End Identifiers.

(** * Every edit is an insertion *)

Section Growth.

Lemma sublist_insert_at (q : nat) (t d : str) : sublist d (insert_at q t d).
Proof.
  unfold insert_at. rewrite <- (take_drop q d) at 1.
  apply sublist_app; [reflexivity|]. apply sublist_inserts_l. reflexivity.
Qed.

Lemma add_file_refs_sublist (files : list entry) (d : str) :
  sublist d (add_file_refs files d).
Proof.
  unfold add_file_refs. destruct (re_search file_ref_pattern d);
    [apply sublist_insert_at|reflexivity].
Qed.

Lemma add_group_refs_sublist (files : list entry) (d : str) :
  sublist d (add_group_refs files d).
Proof.
  unfold add_group_refs. destruct (re_search group_pattern d);
    [apply sublist_insert_at|reflexivity].
Qed.

Lemma add_build_file_sublist (line d : str) : sublist d (add_build_file line d).
Proof.
  unfold add_build_file. destruct (re_search build_file_pattern d);
    [apply sublist_insert_at|reflexivity].
Qed.

Lemma loop_content_sublist (jobs : list (entry * str)) (d : str) :
  sublist d (loop_content jobs d).
Proof.
  unfold loop_content. revert d. induction jobs as [|job jobs IH]; intros d.
  - reflexivity.
  - simpl. etrans; [|apply IH]. apply add_build_file_sublist.
Qed.

Lemma patched_sublist (w : World) (d : str) : sublist d (patched w d).
Proof.
  unfold patched, before_sources.
  assert (H : sublist d (add_group_refs (files_of w)
                           (add_file_refs (files_of w) d))).
  { etrans; [apply add_file_refs_sublist|apply add_group_refs_sublist]. }
  destruct (re_search sources_pattern _); [|exact H].
  etrans; [exact H|]. etrans; [apply loop_content_sublist|].
  apply sublist_insert_at.
Qed.

End Growth.

(** * The output of a run *)

Section Output.

Lemma stdout_app (w : World) (evs : list Event) :
  stdout (mkWorld (fs_file w) (fs_writable w) (urandom w) (drawn w)
                  (events w ++ evs))
  = stdout w ++ omap (fun e => match e with EvPrint l => Some l | _ => None end)
                     evs.
Proof. unfold stdout. simpl. apply omap_app. Qed.

Lemma omap_uuid_events (r : nat -> N) (k n : nat) :
  omap (fun e => match e with EvPrint l => Some l | _ => None end)
       (uuid_events r k n) = [].
Proof.
  unfold uuid_events. revert k. induction n as [|n IH]; intros k;
    [reflexivity|]. simpl. apply IH.
Qed.

Lemma omap_prints (ls : list str) :
  omap (fun e => match e with EvPrint l => Some l | _ => None end)
       (map EvPrint ls) = ls.
Proof. induction ls as [|l ls IH]; [reflexivity|]. simpl. f_equal. exact IH. Qed.

Lemma printed_before_write (w : World) (d : str) :
  omap (fun e => match e with EvPrint l => Some l | _ => None end)
       (events_before_write w d) = [].
Proof.
  unfold events_before_write. rewrite omap_app, omap_uuid_events. reflexivity.
Qed.

Lemma printed_from_write (w : World) (d : str) :
  omap (fun e => match e with EvPrint l => Some l | _ => None end)
       (events_from_write w d) = confirmation w.
Proof. unfold events_from_write. rewrite omap_app, omap_prints. reflexivity. Qed.

Lemma no_write_before_write (w : World) (d : str) :
  forallb (fun e => negb (is_write e)) (events_before_write w d) = true.
Proof.
  unfold events_before_write, uuid_events. simpl.
  generalize (drawn w). induction (draws_made w d) as [|n IH]; intros k;
    [reflexivity|]. simpl. apply IH.
Qed.

(** What the program leaves in the file and on standard output. *)
Lemma main_ok_summary (w : World) (d : str) :
  fs_file w = Some d -> fs_writable w = true ->
  fst (main w) = Ok tt
  /\ fs_file (snd (main w)) = Some (patched w d)
  /\ stdout (snd (main w)) = stdout w ++ confirmation w.
Proof.
  intros Hf Hw. rewrite (main_ok w d Hf Hw). cbn [fst snd fs_file].
  split; [reflexivity|]. split; [reflexivity|].
  unfold stdout. cbn [events]. rewrite !omap_app.
  rewrite printed_before_write, printed_from_write. reflexivity.
Qed.

Lemma main_write_fails_summary (w : World) (d : str) :
  fs_file w = Some d -> fs_writable w = false ->
  fst (main w) = Raise PermissionError
  /\ fs_file (snd (main w)) = Some d
  /\ stdout (snd (main w)) = stdout w.
Proof.
  intros Hf Hw. rewrite (main_write_fails w d Hf Hw).
  unfold world_at_write. cbn [fst snd fs_file].
  split; [reflexivity|]. split; [exact Hf|].
  unfold stdout. cbn [events]. rewrite omap_app, printed_before_write.
  apply app_nil_r.
Qed.

Lemma patched_ext (w1 w2 : World) (d : str) :
  files_of w1 = files_of w2 -> jobs_of w1 = jobs_of w2 ->
  patched w1 d = patched w2 d.
Proof.
  intros Hf Hj. unfold patched, before_sources. rewrite Hf, Hj. reflexivity.
Qed.

End Output.

(** * Sample documents *)

Definition file_ref_sample : str :=
  lit "FF1A4CE429A1A2D000000123 /* ProfileView.swift */ = {isa = PBXFileReference; sourceTree = "
  ++ [dquote] ++ lit "<group>" ++ [dquote] ++ lit "; };".

(** The end-to-end document: header, then the three anchor lines. *)
Definition doc_full : str :=
  build_file_header ++ [nl] ++ file_ref_sample ++ [nl]
  ++ group_anchor ++ [nl] ++ sources_anchor ++ [nl].

(** The three anchor lines without the PBXBuildFile section header. *)
Definition doc_no_header : str :=
  file_ref_sample ++ [nl] ++ group_anchor ++ [nl] ++ sources_anchor ++ [nl].

(** No group anchor. *)
Definition doc_no_group : str :=
  build_file_header ++ [nl] ++ file_ref_sample ++ [nl] ++ sources_anchor ++ [nl].

Definition doc_plain : str := lit "// !$*UTF8*$!" ++ [nl].

(** A world holding [d], with draws [0, 2^40, 2 * 2^40, ...]: the
    identifiers of successive draws differ. *)
Definition world_of (d : str) : World :=
  mkWorld (Some d) true (fun i => N.of_nat i * 2 ^ 40)%N 0 [].

(** The file as it is after the events [evs]. *)
Definition file_after (evs : list Event) (file : option str) : option str :=
  fold_left (fun f e => match e with EvWrite c => Some c | _ => f end) evs file.

(** * The claims *)

Section Claims.

Lemma file_after_no_write (evs : list Event) (file : option str) :
  forallb (fun e => negb (is_write e)) evs = true ->
  file_after evs file = file.
Proof.
  unfold file_after. revert file. induction evs as [|e evs IH]; intros file H;
    [reflexivity|].
  simpl in H. apply andb_true_iff in H as [He H].
  simpl. rewrite (IH _ H). destruct e; try reflexivity; discriminate.
Qed.

Lemma forallb_take {A} (f : A -> bool) (k : nat) (l : list A) :
  forallb f l = true -> forallb f (take k l) = true.
Proof.
  revert k. induction l as [|x l IH]; intros [|k] H; try reflexivity.
  simpl in *. apply andb_true_iff in H as [Hx H].
  rewrite Hx. simpl. apply IH, H.
Qed.

(** C5. The file is written at most once, by the last file-system
    action of the run, with the text that all insertion steps produced.
    The events of a run split into those before the write, none of which
    writes, and those from the write on (the write, then only prints).
    After every prefix of the run that stops before the write the file is
    as it was; a run that fails (the read or the open for writing fails)
    leaves the file untouched. *)
Theorem write_once_at_end (w : World) :
  exists before after,
    events (snd (main w)) = events w ++ before ++ after
    /\ forallb (fun e => negb (is_write e)) before = true
    /\ (forall k, k <= length before ->
          file_after (take k (before ++ after)) (fs_file w) = fs_file w)
    /\ ((after = [] /\ fst (main w) <> Ok tt
         /\ fs_file (snd (main w)) = fs_file w)
        \/ (exists d, fs_file w = Some d /\ fst (main w) = Ok tt
              /\ after = EvWrite (patched w d) :: map EvPrint (confirmation w)
              /\ fs_file (snd (main w)) = Some (patched w d))).
Proof.
  destruct (fs_file w) as [d|] eqn:Hf.
  - exists (events_before_write w d).
    pose proof (no_write_before_write w d) as Hnw.
    assert (Hpre : forall after k, k <= length (events_before_write w d) ->
              file_after (take k (events_before_write w d ++ after)) (Some d)
              = Some d).
    { intros after k Hk. rewrite take_app_le by exact Hk.
      apply file_after_no_write, forallb_take, Hnw. }
    destruct (fs_writable w) eqn:Hw.
    + exists (events_from_write w d). rewrite (main_ok w d Hf Hw).
      cbn [fst snd events fs_file].
      split; [reflexivity|]. split; [exact Hnw|]. split; [apply Hpre|].
      right. exists d. repeat split; reflexivity.
    + exists []. rewrite (main_write_fails w d Hf Hw).
      unfold world_at_write. cbn [fst snd events fs_file].
      split; [rewrite app_nil_r; reflexivity|]. split; [exact Hnw|].
      split; [apply Hpre|]. left. repeat split; [discriminate|exact Hf].
  - exists [], []. rewrite (main_read_fails w Hf). cbn [fst snd].
    split; [rewrite !app_nil_r; reflexivity|]. split; [reflexivity|].
    split; [intros k _; destruct k; reflexivity|].
    left. repeat split; [discriminate|exact Hf].
Qed.

(** C10. With the identifiers held fixed the run is determined by the
    document: two worlds that hold the same document, agree on whether it
    can be written and on what was printed before, and whose six draws
    yield the same identifiers (the draws themselves may differ) end with
    the same exit status, the same file content and the same output. *)
Theorem deterministic_given_identifiers (w1 w2 : World) (d : str) :
  fs_file w1 = Some d -> fs_file w2 = Some d ->
  fs_writable w1 = fs_writable w2 ->
  stdout w1 = stdout w2 ->
  (forall i, i < 6 -> draw w1 i = draw w2 i) ->
  fst (main w1) = fst (main w2)
  /\ fs_file (snd (main w1)) = fs_file (snd (main w2))
  /\ stdout (snd (main w1)) = stdout (snd (main w2)).
Proof.
  intros Hf1 Hf2 Hw Hout Hid.
  assert (Hfiles : files_of w1 = files_of w2).
  { unfold files_of. rewrite (Hid 0), (Hid 1), (Hid 2) by lia. reflexivity. }
  assert (Hjobs : jobs_of w1 = jobs_of w2).
  { unfold jobs_of. rewrite Hfiles. unfold files_of. cbn [jobs_from].
    change (new_id (urandom w1 (3 + drawn w1))) with (draw w1 3).
    change (new_id (urandom w1 (S (3 + drawn w1)))) with (draw w1 4).
    change (new_id (urandom w1 (S (S (3 + drawn w1))))) with (draw w1 5).
    change (new_id (urandom w2 (3 + drawn w2))) with (draw w2 3).
    change (new_id (urandom w2 (S (3 + drawn w2)))) with (draw w2 4).
    change (new_id (urandom w2 (S (S (3 + drawn w2))))) with (draw w2 5).
    rewrite (Hid 3), (Hid 4), (Hid 5) by lia. reflexivity. }
  pose proof (patched_ext w1 w2 d Hfiles Hjobs) as Hp.
  destruct (fs_writable w1) eqn:Hw1; symmetry in Hw.
  - destruct (main_ok_summary w1 d Hf1 Hw1) as (-> & -> & ->).
    destruct (main_ok_summary w2 d Hf2 Hw) as (-> & -> & ->).
    unfold confirmation. rewrite Hp, Hout, Hfiles. auto.
  - destruct (main_write_fails_summary w1 d Hf1 Hw1) as (-> & -> & ->).
    destruct (main_write_fails_summary w2 d Hf2 Hw) as (-> & -> & ->).
    auto.
Qed.

(** Two worlds whose draws differ (in the 32 low bits, which the
    truncation to 24 characters drops) and give the same identifiers. *)
Definition world_low_bits (d : str) : World :=
  mkWorld (Some d) true (fun i => N.of_nat i * 2 ^ 40 + 7)%N 0 [].

Lemma deterministic_given_identifiers_witness :
  fst (main (world_of doc_full)) = fst (main (world_low_bits doc_full))
  /\ fs_file (snd (main (world_of doc_full)))
     = fs_file (snd (main (world_low_bits doc_full)))
  /\ stdout (snd (main (world_of doc_full)))
     = stdout (snd (main (world_low_bits doc_full))).
Proof.
  apply (deterministic_given_identifiers (world_of doc_full)
           (world_low_bits doc_full) doc_full); try reflexivity.
  intros i Hi.
  do 6 (destruct i as [|i]; [vm_compute; reflexivity|]). lia.
Defined.

End Claims.

(** * Occurrences under insertion *)

(** [c] is a character of [s]. *)
Definition has (c : ascii) (s : str) : bool := existsb (Ascii.eqb c) s.

(** Whether the end of an occurrence of [a] may fall at offset [j] inside
    an occurrence of [p]: the characters before the cut must agree. *)
Definition cut_at (a p : str) (j : nat) : bool :=
  forallb (fun k => match p !! (j - 1 - k), a !! (length a - 1 - k) with
                    | Some x, Some y => Ascii.eqb x y
                    | _, _ => true
                    end)
          (seq 0 (min j (length a))).

(** Whether the end of an occurrence of [a] may fall strictly inside an
    occurrence of [p]. *)
Definition can_cut (a p : str) : bool :=
  existsb (cut_at a p) (seq 1 (length p - 1)).

Section Insertion.

Lemma has_lookup (s : str) (k : nat) (c : ascii) :
  s !! k = Some c -> has c s = true.
Proof.
  intros H. unfold has. apply existsb_exists. exists c.
  split; [|apply Ascii.eqb_refl].
  apply list_elem_of_In, list_elem_of_lookup. eauto.
Qed.

Lemma has_app (c : ascii) (s t : str) : has c (s ++ t) = has c s || has c t.
Proof. apply existsb_app. Qed.

Lemma occ_cut (a p d : str) (e i : nat) :
  occ a (e - length a) d -> length a <= e ->
  occ p i d -> i < e -> e < i + length p ->
  can_cut a p = true.
Proof.
  intros Ha Hae Hp Hie Hep. unfold can_cut. apply existsb_exists.
  exists (e - i). split; [apply in_seq; lia|].
  unfold cut_at. apply forallb_forall. intros k Hk. apply in_seq in Hk.
  destruct (p !! (e - i - 1 - k)) as [x|] eqn:Ex; [|reflexivity].
  destruct (a !! (length a - 1 - k)) as [y|] eqn:Ey; [|reflexivity].
  apply Hp in Ex. apply Ha in Ey.
  replace (i + (e - i - 1 - k)) with (e - 1 - k) in Ex by lia.
  replace (e - length a + (length a - 1 - k)) with (e - 1 - k) in Ey by lia.
  rewrite Ex in Ey. injection Ey as ->. apply Ascii.eqb_refl.
Qed.

(** Inserting at the end of an occurrence of [a] keeps the occurrences of
    any [p] that such an end cannot cut. *)
Lemma occ_survives (a p d t : str) (e i : nat) :
  occ a (e - length a) d -> length a <= e <= length d ->
  can_cut a p = false ->
  occ p i d ->
  exists i', occ p i' (insert_at e t d).
Proof.
  intros Ha Hae Hcut Hp.
  destruct (decide (e <= i)) as [Hle|Hgt].
  - exists (i + length t). apply occ_insert_before; [exact Hp|lia|exact Hle].
  - destruct (decide (i + length p <= e)) as [Hle'|Hgt'].
    + exists i. apply occ_insert_after; [exact Hp|lia|exact Hle'].
    + exfalso. rewrite (occ_cut a p d e i) in Hcut; [discriminate|..];
        first [assumption | lia].
Qed.

(** An occurrence of [p] in the new text that overlaps the inserted
    block needs a character of the block's ends, or lies inside it. *)
Lemma occ_not_created (p t d : str) (q i : nat) (c0 c1 c : ascii) :
  q <= length d ->
  t !! 0 = Some c0 -> has c0 p = false ->
  t !! (length t - 1) = Some c1 -> has c1 p = false ->
  has c p = true -> has c t = false ->
  occ p i (insert_at q t d) ->
  (i + length p <= q /\ occ p i d)
  \/ (q + length t <= i /\ occ p (i - length t) d).
Proof.
  intros Hq H0 Hc0 H1 Hc1 Hcp Hct Hocc.
  assert (Hlen : 0 < length t) by (apply lookup_lt_Some in H0; exact H0).
  destruct (decide (i + length p <= q)) as [Hl|Hl].
  { left. split; [exact Hl|]. eapply occ_insert_inv_left; eauto. }
  destruct (decide (q + length t <= i)) as [Hr|Hr].
  { right. split; [exact Hr|]. eapply occ_insert_inv_right; eauto. }
  exfalso.
  assert (Hat : forall k x, p !! k = Some x -> q <= i + k < q + length t ->
                            t !! (i + k - q) = Some x).
  { intros k x Hk Hrange. specialize (Hocc k x Hk).
    rewrite lookup_insert_at in Hocc by exact Hq.
    destruct (decide (i + k < q)); [lia|].
    destruct (decide (i + k < q + length t)); [exact Hocc|lia]. }
  destruct (decide (i <= q)) as [Hiq|Hiq].
  - (* the occurrence covers the first character of the block *)
    destruct (lookup_lt_is_Some_2 p (q - i) ltac:(lia)) as [x Hx].
    pose proof (Hat _ _ Hx ltac:(lia)) as Ht.
    replace (i + (q - i) - q) with 0 in Ht by lia.
    assert (x = c0) as -> by congruence.
    rewrite (has_lookup _ _ _ Hx) in Hc0. discriminate.
  - destruct (decide (q + length t <= i + length p)) as [Hend|Hend].
    + (* it covers the last character of the block *)
      destruct (lookup_lt_is_Some_2 p (q + length t - 1 - i) ltac:(lia))
        as [x Hx].
      pose proof (Hat _ _ Hx ltac:(lia)) as Ht.
      replace (i + (q + length t - 1 - i) - q) with (length t - 1) in Ht by lia.
      assert (x = c1) as -> by congruence.
      rewrite (has_lookup _ _ _ Hx) in Hc1. discriminate.
    + (* it lies inside the block, which lacks the character [c] of [p] *)
      unfold has in Hcp. apply existsb_exists in Hcp as (x & Hin & Heq).
      apply Ascii.eqb_eq in Heq. subst x.
      apply list_elem_of_In, list_elem_of_lookup in Hin as [k Hk].
      pose proof (lookup_lt_Some _ _ _ Hk).
      pose proof (Hat _ _ Hk ltac:(lia)) as Ht.
      rewrite (has_lookup _ _ _ Ht) in Hct. discriminate.
Qed.

End Insertion.

(** * Searching after an insertion *)

Section SearchInsertion.

Lemma file_ref_pattern_shape :
  file_ref_pattern = map Chr file_ref_head ++ LazyAny :: map Chr file_ref_tail.
Proof. reflexivity. Qed.

(** Where a literal match ends there is an occurrence of the literal. *)
Lemma re_search_lit_end (a d : str) (m : Match) :
  a <> [] -> re_search (map Chr a) d = Some m ->
  occ a (m_end m - length a) d /\ length a <= m_end m <= length d.
Proof.
  intros Hne H. apply re_search_lit_Some in H as (Hocc & He & _); [|exact Hne].
  pose proof (occ_bound a _ d Hocc Hne).
  replace (m_end m - length a) with (m_start m) by lia.
  split; [exact Hocc|lia].
Qed.

Lemma re_search_file_ref_end (d : str) (m : Match) :
  re_search file_ref_pattern d = Some m ->
  occ file_ref_tail (m_end m - length file_ref_tail) d
  /\ length file_ref_tail <= m_end m <= length d.
Proof.
  rewrite file_ref_pattern_shape. intros H.
  apply re_search_lazy_Some in H as (_ & Hb & Hocc); [|discriminate].
  split; [exact Hocc|lia].
Qed.

Lemma found_survives (a p d t : str) (e : nat) :
  p <> [] ->
  occ a (e - length a) d -> length a <= e <= length d ->
  can_cut a p = false ->
  re_search (map Chr p) d <> None ->
  re_search (map Chr p) (insert_at e t d) <> None.
Proof.
  intros Hne Ha Hae Hcut Hfound.
  destruct (re_search (map Chr p) d) as [m|] eqn:E; [|congruence].
  apply re_search_lit_Some in E as (Hocc & _); [|exact Hne].
  destruct (occ_survives a p d t e _ Ha Hae Hcut Hocc) as [i' Hi'].
  destruct (re_search_lit_found p _ i' Hne Hi') as (m' & -> & _).
  discriminate.
Qed.

Lemma not_found_stays (p t d : str) (q : nat) (c0 c1 c : ascii) :
  q <= length d ->
  t !! 0 = Some c0 -> has c0 p = false ->
  t !! (length t - 1) = Some c1 -> has c1 p = false ->
  has c p = true -> has c t = false ->
  re_search (map Chr p) d = None ->
  re_search (map Chr p) (insert_at q t d) = None.
Proof.
  intros Hq H0 Hc0 H1 Hc1 Hcp Hct Hnone.
  apply re_search_lit_None. intros j Hocc.
  pose proof (proj1 (re_search_lit_None p d) Hnone) as Hno.
  destruct (occ_not_created p t d q j c0 c1 c Hq H0 Hc0 H1 Hc1 Hcp Hct Hocc)
    as [[_ H]|[_ H]]; eapply Hno; exact H.
Qed.

(** Inserting at or after the end of the leftmost match keeps it. *)
Lemma first_match_stays (p d t : str) (m : Match) (q : nat) :
  p <> [] -> re_search (map Chr p) d = Some m ->
  m_end m <= q <= length d ->
  re_search (map Chr p) (insert_at q t d) = Some m.
Proof.
  intros Hne H Hq.
  apply re_search_lit_Some in H as (Hocc & He & Hmin); [|exact Hne].
  apply re_search_lit_Some; [exact Hne|].
  split; [apply occ_insert_after; [exact Hocc|lia|lia]|].
  split; [exact He|].
  intros j Hj Hoccj. apply (Hmin j Hj).
  eapply occ_insert_inv_left; [exact Hoccj|lia|lia].
Qed.

(** Inserting before the leftmost match a block that cannot take part in
    a match moves the match by the length of the block. *)
Lemma first_match_shifts (p d t : str) (m : Match) (q : nat) (c0 c1 c : ascii) :
  p <> [] -> re_search (map Chr p) d = Some m ->
  q <= m_start m ->
  t !! 0 = Some c0 -> has c0 p = false ->
  t !! (length t - 1) = Some c1 -> has c1 p = false ->
  has c p = true -> has c t = false ->
  re_search (map Chr p) (insert_at q t d)
  = Some (mkMatch (m_start m + length t) (m_end m + length t)).
Proof.
  intros Hne H Hq H0 Hc0 H1 Hc1 Hcp Hct.
  apply re_search_lit_Some in H as (Hocc & He & Hmin); [|exact Hne].
  pose proof (occ_bound p _ d Hocc Hne) as Hb.
  apply re_search_lit_Some; [exact Hne|]. simpl.
  split; [apply occ_insert_before; [exact Hocc|lia|exact Hq]|].
  split; [lia|].
  intros j Hj Hoccj.
  destruct (occ_not_created p t d q j c0 c1 c ltac:(lia) H0 Hc0 H1 Hc1 Hcp Hct
              Hoccj) as [[Hl H]|[Hr H]].
  - apply (Hmin j); [|exact H]. destruct p; [congruence|]. simpl in Hl. lia.
  - apply (Hmin (j - length t)); [lia|exact H].
Qed.

End SearchInsertion.

(** * The inserted blocks *)

Definition file_refs_block (files : list entry) : str :=
  [nl] ++ join [nl] (map file_ref_line files).

Definition group_refs_block (files : list entry) : str :=
  [nl] ++ join [nl] (map group_line files).

Definition build_file_block (job : entry * str) : str :=
  [nl] ++ build_file_entry (fst job) (snd job).

Definition sources_block (jobs : list (entry * str)) : str :=
  [nl] ++ join [nl] (loop_refs jobs).

(** [p] occurs somewhere in [s]. *)
Definition contains (p s : str) : Prop := exists pre post, s = pre ++ p ++ post.

(** The number of occurrences of the character [c] in [s]. *)
Definition count (c : ascii) (s : str) : nat :=
  length (List.filter (Ascii.eqb c) s).

Section Blocks.

Lemma has_upper_hex (c : ascii) (s : str) :
  is_upper_hex c = false -> forallb is_upper_hex s = true -> has c s = false.
Proof.
  intros Hc Hs. unfold has. apply not_true_is_false. intros H.
  apply existsb_exists in H as (x & Hin & Heq). apply Ascii.eqb_eq in Heq.
  subst x. rewrite (proj1 (forallb_forall _ _) Hs c Hin) in Hc. discriminate.
Qed.

Lemma has_new_id (c : ascii) (random : N) :
  is_upper_hex c = false -> has c (new_id random) = false.
Proof. intros Hc. apply has_upper_hex; [exact Hc|apply new_id_upper_hex]. Qed.

Lemma has_join (c : ascii) (sep : str) (parts : list str) :
  has c sep = false -> Forall (fun s => has c s = false) parts ->
  has c (join sep parts) = false.
Proof.
  intros Hsep H. induction H as [|s parts Hs H IH]; [reflexivity|].
  destruct parts as [|s' parts]; [exact Hs|].
  change (join sep (s :: s' :: parts)) with (s ++ sep ++ join sep (s' :: parts)).
  rewrite !has_app, Hs, Hsep, IH. reflexivity.
Qed.

Lemma count_app (c : ascii) (s t : str) : count c (s ++ t) = count c s + count c t.
Proof. unfold count. rewrite List.filter_app, length_app. reflexivity. Qed.

Lemma count_insert_at (c : ascii) (q : nat) (t d : str) :
  count c (insert_at q t d) = count c t + count c d.
Proof.
  unfold insert_at. rewrite !count_app.
  rewrite <- (take_drop q d) at 3. rewrite count_app. lia.
Qed.

Lemma count_no (c : ascii) (s : str) : has c s = false -> count c s = 0.
Proof.
  unfold has, count. induction s as [|x s IH]; [reflexivity|]. simpl.
  destruct (Ascii.eqb c x); [discriminate|]. exact IH.
Qed.

(** An entry of this run: a fixed name and a drawn identifier. *)
Definition plain (c : ascii) (e : entry) : Prop :=
  has c (fst e) = false /\ has c (snd e) = false.

Lemma file_ref_line_plain (c : ascii) (e : entry) :
  plain c e -> c = nl \/ c = ","%char -> has c (file_ref_line e) = false.
Proof.
  destruct e as [fn id]. intros [Hfn Hid] Hc. simpl in Hfn, Hid.
  unfold file_ref_line. rewrite !has_app, Hfn, Hid.
  destruct Hc as [-> | ->]; reflexivity.
Qed.

Lemma build_file_entry_plain (c : ascii) (e : entry) (build_id : str) :
  plain c e -> has c build_id = false -> c = nl \/ c = ","%char ->
  has c (build_file_entry e build_id) = false.
Proof.
  destruct e as [fn id]. intros [Hfn Hid] Hb Hc. simpl in Hfn, Hid.
  unfold build_file_entry. rewrite !has_app, Hfn, Hid, Hb.
  destruct Hc as [-> | ->]; reflexivity.
Qed.

Lemma group_line_plain (e : entry) :
  plain nl e -> has nl (group_line e) = false.
Proof.
  destruct e as [fn id]. intros [Hfn Hid]. simpl in Hfn, Hid.
  unfold group_line. rewrite !has_app, Hfn, Hid. reflexivity.
Qed.

Lemma sources_line_plain (e : entry) (build_id : str) :
  plain nl e -> has nl build_id = false ->
  has nl (sources_line e build_id) = false.
Proof.
  destruct e as [fn id]. intros [Hfn Hid] Hb. simpl in Hfn, Hid.
  unfold sources_line. rewrite !has_app, Hfn, Hb. reflexivity.
Qed.

Lemma draw_plain (c : ascii) (w : World) (i : nat) :
  c = nl \/ c = ","%char -> has c (draw w i) = false.
Proof. intros [-> | ->]; apply has_new_id; reflexivity. Qed.

Lemma files_of_plain (c : ascii) (w : World) :
  c = nl \/ c = ","%char -> Forall (plain c) (files_of w).
Proof.
  intros Hc. unfold files_of.
  repeat constructor; cbn [fst snd]; try (apply draw_plain; exact Hc);
    destruct Hc as [-> | ->]; reflexivity.
Qed.

Lemma jobs_of_plain (c : ascii) (w : World) :
  c = nl \/ c = ","%char ->
  Forall (fun job => plain c (fst job) /\ has c (snd job) = false) (jobs_of w).
Proof.
  intros Hc.
  pose proof (files_of_plain c w Hc) as Hf.
  unfold jobs_of. revert Hf. generalize (3 + drawn w). generalize (files_of w).
  intros files. induction files as [|e files IH]; intros k Hf; [constructor|].
  inversion Hf; subst. cbn [jobs_from]. constructor.
  - cbn [fst snd]. split; [assumption|].
    destruct Hc as [-> | ->]; apply has_new_id; reflexivity.
  - apply IH. assumption.
Qed.

End Blocks.

(** * The lazy pattern in full *)

Section LazyPattern.

Lemma match_here_lazy_None (pat : regex) (d : str) :
  match_here (LazyAny :: pat) d = None <->
  forall j, j <= length d -> match_here pat (drop j d) = None.
Proof.
  induction d as [|b d IH].
  - simpl. destruct (match_here pat []) as [n|] eqn:E.
    + split; [discriminate|]. intros H. specialize (H 0 ltac:(lia)).
      simpl in H. congruence.
    + split; [|reflexivity]. intros _ j _. rewrite drop_nil. exact E.
  - simpl. destruct (match_here pat (b :: d)) as [n|] eqn:E.
    + split; [discriminate|]. intros H. specialize (H 0 ltac:(lia)).
      simpl in H. congruence.
    + change ((fix lazy (d0 : str) : option nat :=
                 match match_here pat d0 with
                 | Some n1 => Some n1
                 | None => match d0 with
                           | [] => None
                           | _ :: d' => S <$> lazy d'
                           end
                 end) d) with (match_here (LazyAny :: pat) d).
      destruct (match_here (LazyAny :: pat) d) as [n1|] eqn:E1 in |- *; simpl.
      * split; [discriminate|]. intros H.
        assert (match_here (LazyAny :: pat) d = None) as E2.
        { apply IH. intros j Hj. apply (H (S j)). simpl. lia. }
        congruence.
      * split; [|reflexivity]. intros _ [|j] Hj; simpl; [exact E|].
        apply (proj1 IH E1). simpl in Hj. lia.
Qed.

(** The match of [p.*?s]: the leftmost [p] that some [s] follows, up to
    the nearest such [s]. *)
Lemma re_search_lazy_spec (p s d : str) (m : Match) :
  s <> [] ->
  re_search (map Chr p ++ LazyAny :: map Chr s) d = Some m ->
  occ p (m_start m) d
  /\ m_start m + length p + length s <= m_end m <= length d
  /\ occ s (m_end m - length s) d
  /\ (forall j, m_start m + length p <= j -> j < m_end m - length s ->
                ~ occ s j d)
  /\ (forall i j, i < m_start m -> occ p i d -> i + length p <= j ->
                  ~ occ s j d).
Proof.
  intros Hne H.
  destruct (re_search_lazy_Some p s d m Hne H) as (Hp & Hb & Hs).
  split; [exact Hp|]. split; [exact Hb|]. split; [exact Hs|].
  unfold re_search in H. apply search_from_Some in H
    as (i & n & Hi & Hm & -> & Hmin). simpl in *.
  apply match_here_lit_app in Hm as (rest & n' & Hrest & Hm & ->).
  apply match_here_lazy in Hm as (j0 & n'' & Hj0 & Hm & -> & Hnear).
  apply match_here_lit_Some in Hm as [-> Hm].
  assert (Hdrop : forall k, drop k rest = drop (i + (length p + k)) d).
  { intros k. rewrite <- !drop_drop, Hrest, drop_app_length. reflexivity. }
  split.
  - intros j Hj1 Hj2 Hocc.
    specialize (Hnear (j - (i + length p)) ltac:(lia)).
    apply match_here_lit_None in Hnear. apply Hnear.
    rewrite Hdrop. apply occ_to_drop.
    replace (i + (length p + (j - (i + length p)))) with j by lia. exact Hocc.
  - intros i' j Hi' Hpi Hj Hocc.
    specialize (Hmin i' Hi').
    apply occ_to_drop, occ_prefix in Hpi as [rest' Hrest'].
    assert (match_here (map Chr p ++ LazyAny :: map Chr s) (drop i' d) <> None)
      as Hcontra; [|congruence].
    destruct (match_here (LazyAny :: map Chr s) rest') as [k|] eqn:E.
    + intros Hnone.
      assert (match_here (map Chr p ++ LazyAny :: map Chr s) (drop i' d)
              = Some (length p + k)) by (apply match_here_lit_app; eauto).
      congruence.
    + exfalso. pose proof (occ_bound s j d Hocc Hne) as Hjb.
      assert (Hlen : length rest' = length d - i' - length p).
      { assert (length (drop i' d) = length p + length rest')
          by (rewrite Hrest', length_app; reflexivity).
        rewrite length_drop in H. lia. }
      pose proof (proj1 (match_here_lazy_None _ _) E (j - (i' + length p))
                    ltac:(lia)) as Hn.
      apply match_here_lit_None in Hn. apply Hn.
      replace (drop (j - (i' + length p)) rest') with (drop j d).
      * apply occ_to_drop, Hocc.
      * replace j with (i' + (length p + (j - (i' + length p)))) at 1 by lia.
        rewrite <- !drop_drop, Hrest', drop_app_length. reflexivity.
Qed.

(** A [p] followed, anywhere later, by an [s] is enough for a match. *)
Lemma re_search_lazy_found (p s d : str) (i j : nat) :
  s <> [] -> occ p i d -> occ s j d -> i + length p <= j ->
  re_search (map Chr p ++ LazyAny :: map Chr s) d <> None.
Proof.
  intros Hne Hp Hs Hij Hnone. unfold re_search in Hnone.
  pose proof (occ_bound s j d Hs Hne) as Hjb.
  pose proof (proj1 (search_from_None _ _ _) Hnone i ltac:(lia)) as Hm.
  apply occ_to_drop, occ_prefix in Hp as [rest Hrest].
  assert (Hlen : length rest = length d - i - length p).
  { assert (length (drop i d) = length p + length rest)
      by (rewrite Hrest, length_app; reflexivity).
    rewrite length_drop in H. lia. }
  destruct (match_here (LazyAny :: map Chr s) rest) as [k|] eqn:E.
  - assert (match_here (map Chr p ++ LazyAny :: map Chr s) (drop i d)
            = Some (length p + k)) by (apply match_here_lit_app; eauto).
    congruence.
  - pose proof (proj1 (match_here_lazy_None _ _) E (j - (i + length p))
                  ltac:(lia)) as Hn.
    apply match_here_lit_None in Hn. apply Hn.
    replace (drop (j - (i + length p)) rest) with (drop j d).
    + apply occ_to_drop, Hs.
    + replace j with (i + (length p + (j - (i + length p)))) at 1 by lia.
      rewrite <- !drop_drop, Hrest, drop_app_length. reflexivity.
Qed.

End LazyPattern.

(** * The steps, one by one *)

(** The build-file lines of the jobs, last job first. *)
Definition build_file_blocks (jobs : list (entry * str)) : str :=
  concat (map build_file_block (rev jobs)).

Section Steps.

Lemma group_pattern_shape : group_pattern = map Chr group_anchor.
Proof. reflexivity. Qed.

Lemma sources_pattern_shape : sources_pattern = map Chr sources_anchor.
Proof. reflexivity. Qed.

Lemma build_file_pattern_shape : build_file_pattern = map Chr build_file_header.
Proof. reflexivity. Qed.

Lemma insert_at_twice (q : nat) (t1 t2 d : str) :
  q <= length d ->
  insert_at q t2 (insert_at q t1 d) = insert_at q (t2 ++ t1) d.
Proof.
  intros Hq. unfold insert_at.
  assert (Hlen : length (take q d) = q) by (rewrite length_take; lia).
  rewrite (take_app_length' (take q d)) by (symmetry; exact Hlen).
  rewrite (drop_app_length' (take q d)) by (symmetry; exact Hlen).
  rewrite <- !app_assoc. reflexivity.
Qed.

Lemma insert_at_nil (q : nat) (d : str) : insert_at q [] d = d.
Proof. unfold insert_at. simpl. apply take_drop. Qed.

Lemma add_build_file_found (line d : str) (hm : Match) :
  re_search build_file_pattern d = Some hm ->
  add_build_file line d = insert_at (m_end hm) ([nl] ++ line) d
  /\ re_search build_file_pattern (add_build_file line d) = Some hm.
Proof.
  intros H. unfold add_build_file. rewrite H. split; [reflexivity|].
  rewrite build_file_pattern_shape in *.
  apply first_match_stays; [discriminate|exact H|].
  apply re_search_lit_end in H; [lia|discriminate].
Qed.

(** With the header found, every pass of the loop inserts at the same
    place, so the lines pile up behind the header, the last one first. *)
Lemma loop_content_found (jobs : list (entry * str)) (d : str) (hm : Match) :
  re_search build_file_pattern d = Some hm ->
  loop_content jobs d = insert_at (m_end hm) (build_file_blocks jobs) d
  /\ re_search build_file_pattern (loop_content jobs d) = Some hm.
Proof.
  unfold loop_content, build_file_blocks.
  revert d. induction jobs as [|job jobs IH]; intros d H.
  - simpl. rewrite insert_at_nil. auto.
  - assert (Hq : m_end hm <= length d).
    { rewrite build_file_pattern_shape in H.
      apply re_search_lit_end in H; [lia|discriminate]. }
    cbn [fold_left]. unfold build_step at 2.
    destruct (add_build_file_found (build_file_entry (fst job) (snd job)) d hm H)
      as [Heq Hfound].
    destruct (IH _ Hfound) as [IH1 IH2]. split; [|exact IH2].
    rewrite IH1, Heq. fold (build_file_block job).
    rewrite insert_at_twice by exact Hq.
    cbn [rev]. rewrite map_app, concat_app. cbn [map concat].
    rewrite app_nil_r. reflexivity.
Qed.

(** Without the header the loop leaves the text alone. *)
Lemma loop_content_no_header (jobs : list (entry * str)) (d : str) :
  re_search build_file_pattern d = None -> loop_content jobs d = d.
Proof.
  intros H. unfold loop_content. induction jobs as [|job jobs IH];
    [reflexivity|].
  cbn [fold_left]. unfold build_step at 2. unfold add_build_file.
  rewrite H. exact IH.
Qed.

End Steps.

(** * Shape of the inserted blocks *)

(** A block that cannot take part in a match of an anchor: it starts
    with a newline, ends with a newline or a semicolon, and holds no
    comma. *)
Definition inert (t : str) : Prop :=
  t !! 0 = Some nl
  /\ (last t = Some nl \/ last t = Some ";"%char)
  /\ has ","%char t = false.

Section BlockShape.

Lemma last_ends (l : str) (c : ascii) :
  last l = Some c -> l !! (length l - 1) = Some c.
Proof. rewrite last_lookup, Nat.sub_1_r. auto. Qed.

Lemma file_ref_line_last (e : entry) : last (file_ref_line e) = Some ";"%char.
Proof. destruct e as [fn id]. unfold file_ref_line. rewrite !last_app. reflexivity. Qed.

Lemma build_file_entry_last (e : entry) (build_id : str) :
  last (build_file_entry e build_id) = Some ";"%char.
Proof.
  destruct e as [fn id]. unfold build_file_entry. rewrite !last_app.
  reflexivity.
Qed.

Lemma last_join (c : ascii) (sep : str) (parts : list str) :
  parts <> [] -> Forall (fun s => last s = Some c) parts ->
  last (join sep parts) = Some c.
Proof.
  intros Hne H. induction H as [|s parts Hs H IH]; [congruence|].
  destruct parts as [|s' parts]; [exact Hs|].
  change (join sep (s :: s' :: parts)) with (s ++ sep ++ join sep (s' :: parts)).
  rewrite !last_app, IH by discriminate. reflexivity.
Qed.

Lemma file_refs_block_inert (files : list entry) :
  Forall (plain ","%char) files -> inert (file_refs_block files).
Proof.
  intros Hplain. unfold inert, file_refs_block.
  split; [reflexivity|]. split.
  - destruct files as [|e files]; [left; reflexivity|]. right.
    rewrite last_app, (last_join ";"%char); [reflexivity|discriminate|].
    apply Forall_map, Forall_forall. intros x _. apply file_ref_line_last.
  - rewrite has_app. apply orb_false_iff. split; [reflexivity|].
    apply has_join; [reflexivity|].
    apply Forall_map. eapply Forall_impl; [exact Hplain|].
    intros e He. apply file_ref_line_plain; auto.
Qed.

Lemma build_file_block_inert (job : entry * str) :
  plain ","%char (fst job) -> has ","%char (snd job) = false ->
  inert (build_file_block job).
Proof.
  intros Hplain Hid. unfold inert, build_file_block.
  split; [reflexivity|]. split.
  - right. rewrite last_app, build_file_entry_last. reflexivity.
  - rewrite has_app. apply orb_false_iff. split; [reflexivity|].
    apply build_file_entry_plain; auto.
Qed.

Lemma concat_inert (blocks : list str) :
  blocks <> [] -> Forall inert blocks -> inert (concat blocks).
Proof.
  intros Hne H. induction H as [|b blocks Hb H IH]; [congruence|].
  destruct blocks as [|b' blocks].
  - simpl. rewrite app_nil_r. exact Hb.
  - specialize (IH ltac:(discriminate)).
    destruct Hb as (Hb0 & Hb1 & Hb2). destruct IH as (I0 & I1 & I2).
    change (concat (b :: b' :: blocks)) with (b ++ concat (b' :: blocks)).
    split; [|split].
    + rewrite lookup_app_l; [exact Hb0|]. apply lookup_lt_Some in Hb0. exact Hb0.
    + rewrite last_app. destruct I1 as [-> | ->]; auto.
    + rewrite has_app, Hb2, I2. reflexivity.
Qed.

Lemma build_file_blocks_inert (jobs : list (entry * str)) :
  jobs <> [] ->
  Forall (fun job => plain ","%char (fst job) /\ has ","%char (snd job) = false)
         jobs ->
  inert (build_file_blocks jobs).
Proof.
  intros Hne H. unfold build_file_blocks. apply concat_inert.
  - destruct jobs as [|j jobs]; [congruence|]. simpl.
    destruct (rev jobs); discriminate.
  - apply Forall_map. apply Forall_forall. intros job Hin.
    apply list_elem_of_In, in_rev, list_elem_of_In in Hin.
    rewrite Forall_forall in H. destruct (H job Hin).
    apply build_file_block_inert; assumption.
Qed.

(** An inert block neither creates nor hides a match of an anchor that
    holds a comma but no newline and no semicolon. *)
Definition comma_anchor (p : str) : Prop :=
  p <> [] /\ has nl p = false /\ has ";"%char p = false /\ has ","%char p = true.

Lemma not_found_stays_inert (p t d : str) (q : nat) :
  comma_anchor p -> inert t -> q <= length d ->
  re_search (map Chr p) d = None ->
  re_search (map Chr p) (insert_at q t d) = None.
Proof.
  intros (Hne & Hnl & Hsemi & Hcomma) (H0 & H1 & H2) Hq Hnone.
  destruct H1 as [H1|H1]; apply last_ends in H1.
  - eapply (not_found_stays p t d q nl nl ","%char); eauto.
  - eapply (not_found_stays p t d q nl ";"%char ","%char); eauto.
Qed.

Lemma first_match_shifts_inert (p t d : str) (q : nat) (m : Match) :
  comma_anchor p -> inert t ->
  re_search (map Chr p) d = Some m -> q <= m_start m ->
  re_search (map Chr p) (insert_at q t d)
  = Some (mkMatch (m_start m + length t) (m_end m + length t)).
Proof.
  intros (Hne & Hnl & Hsemi & Hcomma) (H0 & H1 & H2) Hm Hq.
  destruct H1 as [H1|H1]; apply last_ends in H1.
  - eapply (first_match_shifts p d t m q nl nl ","%char); eauto.
  - eapply (first_match_shifts p d t m q nl ";"%char ","%char); eauto.
Qed.

Lemma group_anchor_comma : comma_anchor group_anchor.
Proof. repeat split; try reflexivity. discriminate. Qed.

Lemma sources_anchor_comma : comma_anchor sources_anchor.
Proof. repeat split; try reflexivity. discriminate. Qed.

End BlockShape.

(** * No step hides the anchor of another *)

Section Keeps.

Lemma add_file_refs_keeps (p : str) (files : list entry) (d : str) :
  p <> [] -> can_cut file_ref_tail p = false ->
  re_search (map Chr p) d <> None ->
  re_search (map Chr p) (add_file_refs files d) <> None.
Proof.
  intros Hne Hcut Hfound. unfold add_file_refs.
  destruct (re_search file_ref_pattern d) as [m|] eqn:E; [|exact Hfound].
  destruct (re_search_file_ref_end d m E) as [Hocc Hb].
  exact (found_survives file_ref_tail p d _ (m_end m) Hne Hocc Hb Hcut Hfound).
Qed.

Lemma add_group_refs_keeps (p : str) (files : list entry) (d : str) :
  p <> [] -> can_cut group_anchor p = false ->
  re_search (map Chr p) d <> None ->
  re_search (map Chr p) (add_group_refs files d) <> None.
Proof.
  intros Hne Hcut Hfound. unfold add_group_refs.
  destruct (re_search group_pattern d) as [m|] eqn:E; [|exact Hfound].
  rewrite group_pattern_shape in E.
  destruct (re_search_lit_end group_anchor d m ltac:(discriminate) E)
    as [Hocc Hb].
  exact (found_survives group_anchor p d _ (m_end m) Hne Hocc Hb Hcut Hfound).
Qed.

Lemma loop_content_keeps (p : str) (jobs : list (entry * str)) (d : str) :
  p <> [] -> can_cut build_file_header p = false ->
  re_search (map Chr p) d <> None ->
  re_search (map Chr p) (loop_content jobs d) <> None.
Proof.
  intros Hne Hcut Hfound.
  destruct (re_search build_file_pattern d) as [hm|] eqn:E.
  - destruct (loop_content_found jobs d hm E) as [-> _].
    rewrite build_file_pattern_shape in E.
    destruct (re_search_lit_end build_file_header d hm ltac:(discriminate) E)
      as [Hocc Hb].
    exact (found_survives build_file_header p d _ (m_end hm) Hne Hocc Hb Hcut
             Hfound).
  - rewrite loop_content_no_header by exact E. exact Hfound.
Qed.

(** The first two steps keep the anchors of the later ones. *)
Lemma before_sources_keeps (p : str) (w : World) (d : str) :
  p <> [] -> can_cut file_ref_tail p = false -> can_cut group_anchor p = false ->
  re_search (map Chr p) d <> None ->
  re_search (map Chr p) (before_sources w d) <> None.
Proof.
  intros Hne H1 H2 Hfound. unfold before_sources.
  apply add_group_refs_keeps; [exact Hne|exact H2|].
  apply add_file_refs_keeps; assumption.
Qed.

Lemma jobs_of_nonempty (w : World) : jobs_of w <> [].
Proof. unfold jobs_of, files_of. cbn [jobs_from]. discriminate. Qed.

Lemma jobs_of_length (w : World) : length (jobs_of w) = 3.
Proof. unfold jobs_of, files_of. cbn [jobs_from]. reflexivity. Qed.

End Keeps.

(** * Further properties of the steps *)

Section Further.

Lemma take_drop_at (pre x post : str) :
  take (length pre + length x) (pre ++ x ++ post) = pre ++ x
  /\ drop (length pre + length x) (pre ++ x ++ post) = post.
Proof.
  rewrite app_assoc. rewrite <- length_app.
  split; [apply take_app_length|apply drop_app_length].
Qed.

(** X2. The group step puts its block right behind the leftmost occurrence of
    the group anchor: with no occurrence starting inside [pre], the text
    [pre ++ anchor ++ post] becomes [pre ++ anchor ++ block ++ post]. *)
Theorem group_refs_after_leftmost_anchor (files : list entry) (pre post : str) :
  (forall j, j < length pre ->
             ~ occ group_anchor j (pre ++ group_anchor ++ post)) ->
  add_group_refs files (pre ++ group_anchor ++ post)
  = pre ++ group_anchor ++ group_refs_block files ++ post.
Proof.
  intros Hmin.
  assert (E : re_search group_pattern (pre ++ group_anchor ++ post)
              = Some (mkMatch (length pre) (length pre + length group_anchor))).
  { rewrite group_pattern_shape. apply re_search_lit_Some; [discriminate|].
    simpl m_start. simpl m_end. split; [apply occ_app|]. split; [reflexivity|].
    exact Hmin. }
  unfold add_group_refs. rewrite E. cbn [m_end]. unfold insert_at.
  destruct (take_drop_at pre group_anchor post) as [-> ->].
  fold (group_refs_block files). rewrite <- !app_assoc. reflexivity.
Qed.

Lemma group_refs_after_leftmost_anchor_witness :
  add_group_refs (files_of (world_of doc_plain)) ([] ++ group_anchor ++ [])
  = [] ++ group_anchor ++ group_refs_block (files_of (world_of doc_plain)) ++ [].
Proof.
  apply (group_refs_after_leftmost_anchor (files_of (world_of doc_plain)) [] []).
  simpl. intros j Hj. lia.
Defined.

(** X1. The reference step puts its block right behind the nearest
    [sourceTree = "<group>";] that follows the leftmost
    [FF1A4CE429A1A2D000000123 /* ProfileView.swift */]: whatever follows
    that semicolon on the line (its closing brace) ends up behind the
    block. *)
Theorem file_refs_after_nearest_tail (files : list entry) (pre mid post : str) :
  let d := pre ++ file_ref_head ++ mid ++ file_ref_tail ++ post in
  (forall i, i < length pre -> ~ occ file_ref_head i d) ->
  (forall j, length pre + length file_ref_head <= j ->
             j < length pre + length file_ref_head + length mid ->
             ~ occ file_ref_tail j d) ->
  add_file_refs files d
  = pre ++ file_ref_head ++ mid ++ file_ref_tail
    ++ file_refs_block files ++ post.
Proof.
  intros d Hhead Htail.
  assert (Hocc_h : occ file_ref_head (length pre) d) by apply occ_app.
  assert (Hocc_t : occ file_ref_tail
                     (length pre + length file_ref_head + length mid) d).
  { unfold d. rewrite !app_assoc. rewrite <- !app_assoc.
    replace (pre ++ file_ref_head ++ mid ++ file_ref_tail ++ post)
      with ((pre ++ file_ref_head ++ mid) ++ file_ref_tail ++ post)
      by (rewrite <- !app_assoc; reflexivity).
    replace (length pre + length file_ref_head + length mid)
      with (length (pre ++ file_ref_head ++ mid))
      by (rewrite !length_app; lia).
    apply occ_app. }
  destruct (re_search file_ref_pattern d) as [m|] eqn:E.
  2:{ exfalso. rewrite file_ref_pattern_shape in E.
      eapply (re_search_lazy_found file_ref_head file_ref_tail d);
        [discriminate|exact Hocc_h|exact Hocc_t|lia|exact E]. }
  pose proof E as E'. rewrite file_ref_pattern_shape in E'.
  apply re_search_lazy_spec in E'
    as (Hp & Hb & Hs & Hnear & Hleft); [|discriminate].
  assert (Hstart : m_start m = length pre).
  { destruct (lt_eq_lt_dec (m_start m) (length pre)) as [[Hlt|Heq]|Hgt].
    - exfalso. exact (Hhead _ Hlt Hp).
    - exact Heq.
    - exfalso. eapply (Hleft (length pre)); [exact Hgt|exact Hocc_h| |exact Hocc_t].
      lia. }
  assert (Hend : m_end m - length file_ref_tail
                 = length pre + length file_ref_head + length mid).
  { destruct (lt_eq_lt_dec (m_end m - length file_ref_tail)
                (length pre + length file_ref_head + length mid))
      as [[Hlt|Heq]|Hgt].
    - exfalso. eapply (Htail (m_end m - length file_ref_tail)); [lia|lia|exact Hs].
    - exact Heq.
    - exfalso. eapply (Hnear (length pre + length file_ref_head + length mid));
        [lia|lia|exact Hocc_t]. }
  unfold add_file_refs. rewrite E. cbv zeta. fold (file_refs_block files).
  unfold insert_at.
  replace (m_end m)
    with (length (pre ++ file_ref_head ++ mid) + length file_ref_tail)
    by (rewrite !length_app; lia).
  unfold d.
  replace (pre ++ file_ref_head ++ mid ++ file_ref_tail ++ post)
    with ((pre ++ file_ref_head ++ mid) ++ file_ref_tail ++ post)
    by (rewrite <- !app_assoc; reflexivity).
  destruct (take_drop_at (pre ++ file_ref_head ++ mid) file_ref_tail post)
    as [-> ->].
  rewrite <- !app_assoc. reflexivity.
Qed.

Lemma file_refs_after_nearest_tail_witness :
  add_file_refs (files_of (world_of doc_plain))
    ([] ++ file_ref_head ++ [] ++ file_ref_tail ++ lit " };")
  = [] ++ file_ref_head ++ [] ++ file_ref_tail
    ++ file_refs_block (files_of (world_of doc_plain)) ++ lit " };".
Proof.
  apply (file_refs_after_nearest_tail (files_of (world_of doc_plain))
           [] [] (lit " };")).
  - simpl. intros i Hi. lia.
  - simpl. intros j H1 H2. lia.
Defined.

End Further.

(** * The build-phase step *)

Section BuildPhase.

Lemma jobs_from_plain (c : ascii) (r : nat -> N) (files : list entry) :
  c = nl \/ c = ","%char -> Forall (plain c) files ->
  forall k, Forall (fun job => plain c (fst job) /\ has c (snd job) = false)
                   (jobs_from r k files).
Proof.
  intros Hc H. induction H as [|e files He H IH]; intros k; [constructor|].
  cbn [jobs_from]. constructor; [|apply IH]. cbn [fst snd].
  split; [exact He|]. destruct Hc as [-> | ->]; apply has_new_id; reflexivity.
Qed.

Lemma jobs_from_nonempty (r : nat -> N) (k : nat) (files : list entry) :
  files <> [] -> jobs_from r k files <> [].
Proof. destruct files; [congruence|discriminate]. Qed.

Lemma inert_length (t : str) : inert t -> 0 < length t.
Proof. intros (H0 & _). apply lookup_lt_Some in H0. exact H0. Qed.

(** X3. The loop inserts each entry's PBXBuildFile line right behind the
    leftmost section header of the text as it then is, so the lines end
    up behind the header in reverse order of the entries, and the
    build-phase lines are collected in the order of the entries. *)
Theorem build_loop_reverse_order (files : list entry) (pre post : str)
    (refs : list str) (w : World) :
  (forall j, j < length pre ->
             ~ occ build_file_header j (pre ++ build_file_header ++ post)) ->
  let jobs := jobs_from (urandom w) (drawn w) files in
  fst (build_loop files (pre ++ build_file_header ++ post) refs w)
  = Ok (pre ++ build_file_header
            ++ concat (map build_file_block (rev jobs)) ++ post,
        refs ++ map (fun job => sources_line (fst job) (snd job)) jobs).
Proof.
  intros Hmin jobs. rewrite build_loop_run. cbn [fst]. fold jobs.
  assert (E : re_search build_file_pattern (pre ++ build_file_header ++ post)
              = Some (mkMatch (length pre)
                              (length pre + length build_file_header))).
  { rewrite build_file_pattern_shape. apply re_search_lit_Some; [discriminate|].
    simpl m_start. simpl m_end. split; [apply occ_app|]. split; [reflexivity|].
    exact Hmin. }
  destruct (loop_content_found jobs _ _ E) as [-> _]. cbn [m_end].
  unfold insert_at.
  destruct (take_drop_at pre build_file_header post) as [-> ->].
  unfold build_file_blocks, loop_refs. rewrite <- !app_assoc. reflexivity.
Qed.

Lemma build_loop_reverse_order_witness :
  let w := world_of doc_plain in
  let jobs := jobs_from (urandom w) (drawn w) (files_of w) in
  fst (build_loop (files_of w) ([] ++ build_file_header ++ [nl]) [] w)
  = Ok ([] ++ build_file_header
           ++ concat (map build_file_block (rev jobs)) ++ [nl],
        [] ++ map (fun job => sources_line (fst job) (snd job)) jobs).
Proof.
  apply (build_loop_reverse_order (files_of (world_of doc_plain)) [] [nl] []
           (world_of doc_plain)).
  simpl. intros j Hj. lia.
Defined.

(** X4. The offset of the build-phase block is taken before the loop.  When
    the section header lies before the build-phase anchor, the loop has
    moved the anchor by the length of the lines it inserted, and the
    block goes in that many characters before the end of the anchor. *)
Theorem add_build_refs_stale_offset (files : list entry) (content : str)
    (w : World) (sm hm : Match) :
  files <> [] -> Forall (plain ","%char) files ->
  re_search sources_pattern content = Some sm ->
  re_search build_file_pattern content = Some hm ->
  m_end hm <= m_start sm ->
  let jobs := jobs_from (urandom w) (drawn w) files in
  let lines := concat (map build_file_block (rev jobs)) in
  let edited := insert_at (m_end hm) lines content in
  fst (add_build_refs files content w)
  = Ok (insert_at (m_end sm) (sources_block jobs) edited)
  /\ re_search sources_pattern edited
     = Some (mkMatch (m_start sm + length lines) (m_end sm + length lines))
  /\ 0 < length lines.
Proof.
  intros Hne Hplain Hsm Hhm Hle jobs lines edited.
  assert (Hinert : inert lines).
  { apply build_file_blocks_inert.
    - apply jobs_from_nonempty, Hne.
    - apply jobs_from_plain; auto. }
  split; [|split].
  - rewrite add_build_refs_run, Hsm. cbn [fst]. fold jobs.
    destruct (loop_content_found jobs content hm Hhm) as [-> _].
    reflexivity.
  - rewrite sources_pattern_shape in *.
    apply first_match_shifts_inert;
      [apply sources_anchor_comma|exact Hinert|exact Hsm|exact Hle].
  - apply inert_length, Hinert.
Qed.

(** The header cannot end inside the build-phase anchor. *)
Lemma header_end_outside_anchor (content : str) (sm hm : Match) :
  re_search sources_pattern content = Some sm ->
  re_search build_file_pattern content = Some hm ->
  m_end hm <= m_start sm \/ m_end sm < m_end hm.
Proof.
  intros Hsm Hhm.
  rewrite sources_pattern_shape in Hsm. rewrite build_file_pattern_shape in Hhm.
  apply re_search_lit_Some in Hsm as (Hs & Hse & _); [|discriminate].
  destruct (re_search_lit_end build_file_header content hm ltac:(discriminate)
              Hhm) as [Hh Hhb].
  destruct (decide (m_end hm <= m_start sm)) as [|Hgt]; [left; assumption|].
  destruct (decide (m_end sm < m_end hm)) as [|Hge]; [right; assumption|].
  exfalso.
  destruct (decide (m_end hm = m_end sm)) as [Heq|Hneq].
  - (* the header would end with the anchor's comma *)
    pose proof (Hh (length build_file_header - 1) "/"%char eq_refl) as H1.
    pose proof (Hs (length sources_anchor - 1) ","%char eq_refl) as H2.
    replace (m_end hm - length build_file_header
             + (length build_file_header - 1)) with (m_end hm - 1) in H1
      by (change (length build_file_header) with 32 in *; lia).
    replace (m_start sm + (length sources_anchor - 1)) with (m_end hm - 1) in H2
      by (change (length sources_anchor) with 60 in *; lia).
    congruence.
  - assert (can_cut build_file_header sources_anchor = true) as Hcut.
    { apply (occ_cut _ _ content (m_end hm) (m_start sm));
        [exact Hh|lia|exact Hs|lia|lia]. }
    vm_compute in Hcut. discriminate.
Qed.

(** X5. In every other case, that is when there is no section header or it
    does not end before the build-phase anchor starts, the loop leaves the
    anchor where it was and the block goes in right behind it. *)
Theorem add_build_refs_offset_exact (files : list entry) (content : str)
    (w : World) (sm : Match) :
  re_search sources_pattern content = Some sm ->
  (forall hm, re_search build_file_pattern content = Some hm ->
              m_start sm < m_end hm) ->
  let jobs := jobs_from (urandom w) (drawn w) files in
  fst (add_build_refs files content w)
  = Ok (insert_at (m_end sm) (sources_block jobs) (loop_content jobs content))
  /\ re_search sources_pattern (loop_content jobs content) = Some sm.
Proof.
  intros Hsm Hhead jobs. split.
  - rewrite add_build_refs_run, Hsm. reflexivity.
  - destruct (re_search build_file_pattern content) as [hm|] eqn:Hhm.
    + specialize (Hhead hm eq_refl).
      destruct (header_end_outside_anchor content sm hm Hsm Hhm) as [Hle|Hgt];
        [lia|].
      destruct (loop_content_found jobs content hm Hhm) as [-> _].
      rewrite sources_pattern_shape in *.
      apply first_match_stays; [discriminate|exact Hsm|].
      rewrite build_file_pattern_shape in Hhm.
      apply re_search_lit_end in Hhm; [lia|discriminate].
    + rewrite loop_content_no_header by exact Hhm. exact Hsm.
Qed.

End BuildPhase.

Section BuildPhaseWitnesses.

Lemma add_build_refs_stale_offset_witness :
  let w := world_of doc_plain in
  let jobs := jobs_from (urandom w) (drawn w) (files_of w) in
  let lines := concat (map build_file_block (rev jobs)) in
  let edited := insert_at 32 lines doc_full in
  fst (add_build_refs (files_of w) doc_full w)
  = Ok (insert_at 255 (sources_block jobs) edited)
  /\ re_search sources_pattern edited
     = Some (mkMatch (195 + length lines) (255 + length lines))
  /\ 0 < length lines.
Proof.
  apply (add_build_refs_stale_offset (files_of (world_of doc_plain)) doc_full
           (world_of doc_plain) (mkMatch 195 255) (mkMatch 0 32)).
  - discriminate.
  - repeat constructor; vm_compute; reflexivity.
  - vm_compute. reflexivity.
  - vm_compute. reflexivity.
  - simpl. lia.
Defined.

Lemma add_build_refs_offset_exact_witness :
  let w := world_of doc_plain in
  let jobs := jobs_from (urandom w) (drawn w) (files_of w) in
  fst (add_build_refs (files_of w) doc_no_header w)
  = Ok (insert_at 222 (sources_block jobs) (loop_content jobs doc_no_header))
  /\ re_search sources_pattern (loop_content jobs doc_no_header)
     = Some (mkMatch 162 222).
Proof.
  apply (add_build_refs_offset_exact (files_of (world_of doc_plain))
           doc_no_header (world_of doc_plain) (mkMatch 162 222)).
  - vm_compute. reflexivity.
  - intros hm H. vm_compute in H. discriminate.
Defined.

End BuildPhaseWitnesses.

(** * Lines added by the blocks *)

Section WholeRun.

Lemma count_join_nl (parts : list str) :
  parts <> [] -> Forall (fun s => has nl s = false) parts ->
  count nl ([nl] ++ join [nl] parts) = length parts.
Proof.
  intros Hne H. rewrite count_app. change (count nl [nl]) with 1.
  induction H as [|s parts Hs H IH]; [congruence|].
  destruct parts as [|s' parts].
  - simpl. rewrite (count_no _ _ Hs). reflexivity.
  - change (join [nl] (s :: s' :: parts))
      with (s ++ [nl] ++ join [nl] (s' :: parts)).
    rewrite !count_app, (count_no _ _ Hs). change (count nl [nl]) with 1.
    specialize (IH ltac:(discriminate)). simpl length in *. lia.
Qed.

Lemma count_nl_file_refs_block (w : World) :
  count nl (file_refs_block (files_of w)) = 3.
Proof.
  unfold file_refs_block. rewrite count_join_nl; [reflexivity|discriminate|].
  apply Forall_map. eapply Forall_impl; [apply (files_of_plain nl); auto|].
  intros e He. apply file_ref_line_plain; auto.
Qed.

Lemma count_nl_group_refs_block (w : World) :
  count nl (group_refs_block (files_of w)) = 3.
Proof.
  unfold group_refs_block. rewrite count_join_nl; [reflexivity|discriminate|].
  apply Forall_map. eapply Forall_impl; [apply (files_of_plain nl); auto|].
  intros e He. apply group_line_plain; auto.
Qed.

Lemma count_nl_sources_block (w : World) :
  count nl (sources_block (jobs_of w)) = 3.
Proof.
  unfold sources_block, loop_refs.
  rewrite count_join_nl; [rewrite length_map; apply jobs_of_length| |].
  - pose proof (jobs_of_nonempty w). destruct (jobs_of w); [congruence|discriminate].
  - apply Forall_map. eapply Forall_impl; [apply (jobs_of_plain nl); auto|].
    intros job [Hp Hid]. apply sources_line_plain; auto.
Qed.

Lemma count_nl_build_file_blocks (jobs : list (entry * str)) :
  Forall (fun job => plain nl (fst job) /\ has nl (snd job) = false) jobs ->
  count nl (build_file_blocks jobs) = length jobs.
Proof.
  intros H. unfold build_file_blocks.
  rewrite <- (length_rev jobs).
  assert (Hrev : Forall (fun job => plain nl (fst job) /\ has nl (snd job) = false)
                        (rev jobs)).
  { apply Forall_forall. intros job Hin.
    apply list_elem_of_In, in_rev, list_elem_of_In in Hin.
    rewrite Forall_forall in H. auto. }
  induction Hrev as [|job l [Hp Hid] _ IH]; [reflexivity|].
  cbn [map concat length]. rewrite count_app, IH.
  unfold build_file_block. rewrite count_app. change (count nl [nl]) with 1.
  rewrite (count_no nl (build_file_entry _ _)); [lia|].
  apply build_file_entry_plain; auto.
Qed.

End WholeRun.

(** * A missing anchor, and the draws of a run *)

Section MissingAndTwice.

Lemma add_file_refs_no_new_group (files : list entry) (d : str) :
  Forall (plain ","%char) files ->
  re_search group_pattern d = None ->
  re_search group_pattern (add_file_refs files d) = None.
Proof.
  intros Hplain Hnone. unfold add_file_refs.
  destruct (re_search file_ref_pattern d) as [m|] eqn:E; [|exact Hnone].
  destruct (re_search_file_ref_end d m E) as [_ Hb].
  rewrite group_pattern_shape in *.
  apply not_found_stays_inert;
    [apply group_anchor_comma|apply file_refs_block_inert, Hplain|lia|exact Hnone].
Qed.

(** X7. Without the group anchor in the input the group step does nothing,
    also on the text that the reference step has edited (its block cannot
    make up a group anchor), and the other two steps go ahead: the file
    holds the input with the reference block and the blocks of the
    build-phase step. *)
Theorem missing_group_anchor (w : World) (d : str) :
  fs_file w = Some d -> fs_writable w = true ->
  re_search group_pattern d = None ->
  re_search file_ref_pattern d <> None ->
  re_search sources_pattern d <> None ->
  exists m1 m3,
    re_search file_ref_pattern d = Some m1
    /\ let c1 := insert_at (m_end m1) (file_refs_block (files_of w)) d in
       re_search group_pattern c1 = None
       /\ re_search sources_pattern c1 = Some m3
       /\ fs_file (snd (main w))
          = Some (insert_at (m_end m3) (sources_block (jobs_of w))
                            (loop_content (jobs_of w) c1)).
Proof.
  intros Hf Hw Hg H1 H3.
  destruct (main_ok_summary w d Hf Hw) as (_ & Hfile & _).
  destruct (re_search file_ref_pattern d) as [m1|] eqn:E1; [|congruence].
  assert (Hc1 : add_file_refs (files_of w) d
                = insert_at (m_end m1) (file_refs_block (files_of w)) d).
  { unfold add_file_refs. rewrite E1. reflexivity. }
  assert (G : re_search group_pattern (add_file_refs (files_of w) d) = None).
  { apply add_file_refs_no_new_group; [apply files_of_plain; auto|exact Hg]. }
  assert (S : re_search sources_pattern (add_file_refs (files_of w) d) <> None).
  { rewrite sources_pattern_shape.
    apply add_file_refs_keeps; [discriminate|reflexivity|].
    rewrite <- sources_pattern_shape. exact H3. }
  destruct (re_search sources_pattern (add_file_refs (files_of w) d))
    as [m3|] eqn:E3; [|congruence].
  exists m1, m3. split; [reflexivity|]. cbv zeta. rewrite <- Hc1.
  split; [exact G|]. split; [exact E3|].
  rewrite Hfile. f_equal. unfold patched, before_sources, add_group_refs.
  rewrite G, E3. reflexivity.
Qed.

Lemma missing_group_anchor_witness :
  exists m1 m3,
    re_search file_ref_pattern doc_no_group = Some m1
    /\ let c1 := insert_at (m_end m1)
                   (file_refs_block (files_of (world_of doc_no_group)))
                   doc_no_group in
       re_search group_pattern c1 = None
       /\ re_search sources_pattern c1 = Some m3
       /\ fs_file (snd (main (world_of doc_no_group)))
          = Some (insert_at (m_end m3)
                    (sources_block (jobs_of (world_of doc_no_group)))
                    (loop_content (jobs_of (world_of doc_no_group)) c1)).
Proof.
  apply (missing_group_anchor (world_of doc_no_group) doc_no_group);
    try reflexivity; vm_compute; first [reflexivity | discriminate].
Defined.

Lemma build_file_block_long (job : entry * str) :
  60 <= length (build_file_block job).
Proof.
  destruct job as [[fn id] bid]. unfold build_file_block, build_file_entry.
  cbn [fst snd]. rewrite !length_app. simpl. lia.
Qed.

Lemma build_file_blocks_long (jobs : list (entry * str)) :
  jobs <> [] -> 60 <= length (build_file_blocks jobs).
Proof.
  intros Hne. unfold build_file_blocks.
  destruct jobs as [|j jobs]; [congruence|]. cbn [rev].
  rewrite map_app, concat_app, length_app. cbn [map concat].
  rewrite app_nil_r. pose proof (build_file_block_long j). lia.
Qed.

(** A run that finds the build-phase anchor leaves a text in which it is
    found again. *)
Lemma patched_keeps_sources (w : World) (d : str) :
  re_search sources_pattern d <> None ->
  re_search sources_pattern (patched w d) <> None.
Proof.
  intros Hfound.
  assert (S : re_search sources_pattern (before_sources w d) <> None).
  { rewrite sources_pattern_shape.
    apply before_sources_keeps; [discriminate|reflexivity|reflexivity|].
    rewrite <- sources_pattern_shape. exact Hfound. }
  unfold patched. set (c2 := before_sources w d) in *.
  destruct (re_search sources_pattern c2) as [sm|] eqn:Esm; [|congruence].
  assert (Hsm : re_search (map Chr sources_anchor) c2 = Some sm)
    by (rewrite <- sources_pattern_shape; exact Esm).
  assert (Hstay : forall c3, re_search sources_pattern c3 = Some sm ->
            re_search sources_pattern
              (insert_at (m_end sm) (sources_block (jobs_of w)) c3) <> None).
  { intros c3 H3. rewrite sources_pattern_shape in *.
    rewrite (first_match_stays sources_anchor c3 _ sm (m_end sm));
      [discriminate|discriminate|exact H3|].
    apply re_search_lit_end in H3; [lia|discriminate]. }
  destruct (re_search build_file_pattern c2) as [hm|] eqn:Ehm.
  - destruct (header_end_outside_anchor c2 sm hm Esm Ehm) as [Hle|Hgt].
    + destruct (loop_content_found (jobs_of w) c2 hm Ehm) as [-> _].
      set (T := build_file_blocks (jobs_of w)).
      assert (Hinert : inert T).
      { apply build_file_blocks_inert; [apply jobs_of_nonempty|].
        apply jobs_of_plain. auto. }
      pose proof (first_match_shifts_inert sources_anchor T c2 (m_end hm) sm
                    sources_anchor_comma Hinert Hsm Hle) as Hshift.
      apply re_search_lit_Some in Hshift as (Hocc & _); [|discriminate].
      cbn [m_start] in Hocc.
      apply re_search_lit_Some in Hsm as (Hocc0 & He & _); [|discriminate].
      pose proof (occ_bound _ _ _ Hocc0 ltac:(discriminate)) as Hb.
      pose proof (build_file_blocks_long (jobs_of w) (jobs_of_nonempty w)) as HL.
      fold T in HL.
      assert (Hocc' : occ sources_anchor
                        (m_start sm + length T
                         + length (sources_block (jobs_of w)))
                        (insert_at (m_end sm) (sources_block (jobs_of w))
                           (insert_at (m_end hm) T c2))).
      { apply occ_insert_before; [exact Hocc| |].
        - rewrite length_insert_at. lia.
        - change (length sources_anchor) with 60 in He. lia. }
      rewrite sources_pattern_shape.
      fold (sources_block (jobs_of w)).
      destruct (re_search_lit_found sources_anchor _ _ ltac:(discriminate) Hocc')
        as (m' & -> & _).
      discriminate.
    + apply Hstay.
      destruct (loop_content_found (jobs_of w) c2 hm Ehm) as [-> _].
      rewrite sources_pattern_shape.
      apply first_match_stays; [discriminate|exact Hsm|].
      rewrite build_file_pattern_shape in Ehm.
      apply re_search_lit_end in Ehm; [lia|discriminate].
  - apply Hstay. rewrite loop_content_no_header by exact Ehm. exact Esm.
Qed.

Lemma patched_grows (w : World) (d : str) :
  re_search sources_pattern d <> None -> length d < length (patched w d).
Proof.
  intros Hfound.
  assert (S : re_search sources_pattern (before_sources w d) <> None).
  { rewrite sources_pattern_shape.
    apply before_sources_keeps; [discriminate|reflexivity|reflexivity|].
    rewrite <- sources_pattern_shape. exact Hfound. }
  pose proof (patched_sublist w d) as Hsub.
  unfold patched in *.
  destruct (re_search sources_pattern (before_sources w d)) as [sm|];
    [|congruence].
  rewrite length_insert_at.
  assert (sublist d (loop_content (jobs_of w) (before_sources w d))) as H.
  { etrans; [|apply loop_content_sublist].
    unfold before_sources.
    etrans; [apply add_file_refs_sublist|apply add_group_refs_sublist]. }
  apply sublist_length in H. unfold sources_block. rewrite length_app.
  cbn [length]. lia.
Qed.

End MissingAndTwice.

Section Twice.

(** X10. Build identifiers are drawn only for a build-phase step that runs:
    a run that reads the file makes six draws when the input holds the
    build-phase anchor, and three or six in any case; a run that cannot
    read the file makes none. *)
Theorem draws_of_a_run (w : World) :
  (fs_file w = None -> drawn (snd (main w)) = drawn w)
  /\ (forall d, fs_file w = Some d ->
        (drawn (snd (main w)) = 3 + drawn w
         \/ drawn (snd (main w)) = 6 + drawn w)
        /\ (re_search sources_pattern d <> None ->
            drawn (snd (main w)) = 6 + drawn w)).
Proof.
  split.
  - intros Hf. rewrite (main_read_fails w Hf). reflexivity.
  - intros d Hf.
    assert (Hd : drawn (snd (main w)) = draws_made w d + drawn w).
    { destruct (fs_writable w) eqn:Hw.
      - rewrite (main_ok w d Hf Hw). reflexivity.
      - rewrite (main_write_fails w d Hf Hw). reflexivity. }
    rewrite Hd. unfold draws_made. split.
    + destruct (re_search sources_pattern (before_sources w d)); auto.
    + intros Hfound.
      assert (S : re_search sources_pattern (before_sources w d) <> None).
      { rewrite sources_pattern_shape.
        apply before_sources_keeps; [discriminate|reflexivity|reflexivity|].
        rewrite <- sources_pattern_shape. exact Hfound. }
      destruct (re_search sources_pattern (before_sources w d)); congruence.
Qed.

End Twice.

(** * What an identifier keeps of its draw *)

Section Truncation.

Local Open Scope N_scope.

Lemma uuid4_high_eq (a b : N) :
  (a mod 2 ^ 128) / 2 ^ 32 = (b mod 2 ^ 128) / 2 ^ 32 ->
  uuid4 a / 2 ^ 32 = uuid4 b / 2 ^ 32.
Proof.
  rewrite <- !N.shiftr_div_pow2. intros H. unfold uuid4. cbv zeta.
  rewrite !N.shiftr_lor, !N.shiftr_ldiff, !N.shiftr_lor, !N.shiftr_ldiff.
  rewrite H. reflexivity.
Qed.

Lemma digit_of_high (int : N) (i : nat) :
  (i < 24)%nat ->
  int / 16 ^ N.of_nat (31 - i) = (int / 2 ^ 32) / 16 ^ N.of_nat (23 - i).
Proof.
  intros Hi. rewrite N.Div0.div_div.
  f_equal. replace (N.of_nat (31 - i)) with (8 + N.of_nat (23 - i)) by lia.
  rewrite N.pow_add_r. reflexivity.
Qed.

Lemma new_id_high (random : N) :
  new_id random
  = map (fun i : nat =>
           upper_char (hex_digit (((uuid4 random / 2 ^ 32)
                                   / 16 ^ N.of_nat (23 - i)) mod 16)))
        (seq 0 24).
Proof.
  unfold new_id. rewrite remove_hyphens. unfold upper, hex32.
  rewrite map_map, firstn_map.
  change (take 24 (seq 0 32)) with (seq 0 24).
  apply map_ext_in. intros i Hi. apply in_seq in Hi.
  rewrite digit_of_high by lia. reflexivity.
Qed.

(** X11. The identifier is cut to 24 of the 32 digits, so it keeps only the 96
    high bits of the draw: two draws that agree on them, whatever their
    low 32 bits, give the same identifier. *)
Theorem new_id_drops_low_bits (a b : N) :
  (a mod 2 ^ 128) / 2 ^ 32 = (b mod 2 ^ 128) / 2 ^ 32 ->
  new_id a = new_id b.
Proof.
  intros H. rewrite !new_id_high, (uuid4_high_eq a b H). reflexivity.
Qed.

Lemma new_id_drops_low_bits_witness : new_id 5 = new_id 4294967295.
Proof. apply (new_id_drops_low_bits 5 4294967295). vm_compute. reflexivity. Defined.

End Truncation.

(** * The process at the system boundary

    [main] above runs on a world that holds the file as text, in which
    the write can only fail as a whole and printing cannot fail.  The
    definitions below follow the system calls behind lines 5-7 and 68-74
    of the script: [open(..., 'r')] may fail or refuse to decode, and
    [read()] turns every CR LF and every lone CR into LF; [open(..., 'w')]
    empties the file before anything is written, [write] turns LF into
    the platform's line separator and may run out of room part-way;
    [print] and the flush at exit may fail.  The steps in between are
    the ones of [main]. *)

Definition cr : ascii := "013"%char.

(** [read()] on a file opened in text mode with the default
    [newline=None]. *)
Fixpoint universal_newlines (s : str) : str :=
  match s with
  | [] => []
  | c :: rest =>
      if Ascii.eqb c cr then
        match rest with
        | c' :: rest' =>
            if Ascii.eqb c' nl then nl :: universal_newlines rest'
            else nl :: universal_newlines rest
        | [] => [nl]
        end
      else c :: universal_newlines rest
  end.

(** [write()] on a file opened in text mode: LF becomes [os.linesep]. *)
Definition write_newlines (linesep : str) (s : str) : str :=
  concat (map (fun c => if Ascii.eqb c nl then linesep else [c]) s).

(** What the path holds. *)
Inductive Stored : Type :=
| Missing                (* open(..., 'r') raises FileNotFoundError *)
| Denied                 (* open(..., 'r') raises PermissionError *)
| Garbled                (* read() raises UnicodeDecodeError *)
| Chars (raw : str).     (* the characters the file decodes to *)

Inductive Fault : Type :=
| FileNotFound
| PermissionDenied
| UnicodeDecode
| DeviceError            (* OSError while the text is written out *)
| StdoutError.           (* OSError from print *)

Inductive Outcome : Type :=
| Exit0                  (* the script ran to its end, exit status 0 *)
| Traceback (f : Fault)  (* unhandled exception, a non-zero exit status *)
| Exit120.               (* the script ran to its end and the flush of
                            standard output at exit failed *)

Record Machine : Type := mkMachine {
  disk : Stored;
  write_denied : bool;        (* open(..., 'w') raises PermissionError *)
  write_room : option nat;    (* characters the device still takes; None: any *)
  linesep : str;              (* os.linesep *)
  stdout_room : option nat;   (* lines standard output still takes; None: any *)
  flush_fails : bool;         (* the flush at exit fails *)
  draws : nat -> N;           (* the random draws, in order *)
  used : nat;                 (* how many draws have been consumed *)
  printed : list str          (* the lines print has handed over *)
}.

Inductive Run (A : Type) : Type :=
| Done (a : A)
| Abort (f : Fault).
Arguments Done {A} a.
Arguments Abort {A} f.

Definition P (A : Type) : Type := Machine -> Run A * Machine.

Definition retP {A} (a : A) : P A := fun m => (Done a, m).

Definition bindP {A B} (c : P A) (k : A -> P B) : P B :=
  fun m => match c m with
           | (Done a, m') => k a m'
           | (Abort f, m') => (Abort f, m')
           end.

Notation "'let?' x ':=' c1 'in' c2" := (bindP c1 (fun x => c2))
  (at level 10, x name, c1 at level 100, c2 at level 200).

(** The draws of the machine, as a world for the steps of [main]. *)
Definition draws_world (m : Machine) : World :=
  mkWorld None false (draws m) (used m) [].

Definition set_used (n : nat) (m : Machine) : Machine :=
  mkMachine (disk m) (write_denied m) (write_room m) (linesep m)
            (stdout_room m) (flush_fails m) (draws m) n (printed m).

Definition set_disk (f : Stored) (m : Machine) : Machine :=
  mkMachine f (write_denied m) (write_room m) (linesep m)
            (stdout_room m) (flush_fails m) (draws m) (used m) (printed m).

Definition fault_of (e : Exn) : Fault :=
  match e with
  | FileNotFoundError => FileNotFound
  | PermissionError => PermissionDenied
  end.

(** A step of [main] that only draws identifiers. *)
Definition lift {A} (c : M A) : P A := fun m =>
  match c (draws_world m) with
  | (Ok a, w') => (Done a, set_used (drawn w') m)
  | (Raise e, w') => (Abort (fault_of e), set_used (drawn w') m)
  end.

(** Lines 6-7. *)
Definition open_read : P str := fun m =>
  match disk m with
  | Missing => (Abort FileNotFound, m)
  | Denied => (Abort PermissionDenied, m)
  | Garbled => (Abort UnicodeDecode, m)
  | Chars raw => (Done (universal_newlines raw), m)
  end.

(** Lines 69-70. *)
Definition open_write (content : str) : P unit := fun m =>
  if write_denied m then (Abort PermissionDenied, m)
  else
    let out := write_newlines (linesep m) content in
    match write_room m with
    | Some k =>
        if k <? length out
        then (Abort DeviceError, set_disk (Chars (take k out)) m)
        else (Done tt, set_disk (Chars out) m)
    | None => (Done tt, set_disk (Chars out) m)
    end.

Definition print_line (line : str) : P unit := fun m =>
  match stdout_room m with
  | Some 0 => (Abort StdoutError, m)
  | Some (S k) =>
      (Done tt, mkMachine (disk m) (write_denied m) (write_room m) (linesep m)
                          (Some k) (flush_fails m) (draws m) (used m)
                          (printed m ++ [line]))
  | None =>
      (Done tt, mkMachine (disk m) (write_denied m) (write_room m) (linesep m)
                          None (flush_fails m) (draws m) (used m)
                          (printed m ++ [line]))
  end.

(** Lines 73-74. *)
Fixpoint print_entries (files : list entry) : P unit :=
  match files with
  | [] => retP tt
  | e :: rest => let? _ := print_line (confirmation_line e) in print_entries rest
  end.

(** The script, line by line. *)
Definition script : P unit :=
  let? content := open_read in
  let? files_to_add := lift files_to_add_gen in
  let content := add_file_refs files_to_add content in
  let content := add_group_refs files_to_add content in
  let? content := lift (add_build_refs files_to_add content) in
  let? _ := open_write content in
  let? _ := print_line confirmation_header in
  print_entries files_to_add.

(** The run of the interpreter on the script. *)
Definition process (m : Machine) : Outcome * Machine :=
  match script m with
  | (Done _, m') => (if flush_fails m' then Exit120 else Exit0, m')
  | (Abort f, m') => (Traceback f, m')
  end.

(** A machine without faults that holds [raw], with the draws of
    [world_of]. *)
Definition machine_of (raw : str) : Machine :=
  mkMachine (Chars raw) false None [nl] None false
            (fun i => N.of_nat i * 2 ^ 40)%N 0 [].

(** A document with CR LF line ends and no anchor. *)
Definition doc_crlf : str := lit "// a" ++ [cr; nl] ++ lit "// b" ++ [cr; nl].

(** ** The run of the process *)

Section ProcessRun.

Lemma bindP_done {A B} (c : P A) (k : A -> P B) (m m' : Machine) (a : A) :
  c m = (Done a, m') -> bindP c k m = k a m'.
Proof. intros H. unfold bindP. rewrite H. reflexivity. Qed.

Lemma bindP_abort {A B} (c : P A) (k : A -> P B) (m m' : Machine) (f : Fault) :
  c m = (Abort f, m') -> bindP c k m = (Abort f, m').
Proof. intros H. unfold bindP. rewrite H. reflexivity. Qed.

Lemma lift_files_to_add_gen (m : Machine) :
  lift files_to_add_gen m
  = (Done (files_of (draws_world m)), set_used (3 + used m) m).
Proof.
  unfold lift. rewrite files_to_add_gen_run.
  cbn [drawn draws_world]. reflexivity.
Qed.

Lemma files_of_set_used (m : Machine) (n : nat) :
  draws_world (set_used n m) = mkWorld None false (draws m) n [].
Proof. reflexivity. Qed.

(** The machine in which the script reaches [open(..., 'w')]. *)
Definition machine_at_write (m : Machine) (t : str) : Machine :=
  set_used (draws_made (draws_world m) t + used m) m.

Lemma script_to_write (m : Machine) (raw : str) :
  disk m = Chars raw ->
  script m =
  (let? _ := open_write (patched (draws_world m) (universal_newlines raw)) in
   let? _ := print_line confirmation_header in
   print_entries (files_of (draws_world m)))
    (machine_at_write m (universal_newlines raw)).
Proof.
  intros Hd. unfold script.
  erewrite bindP_done; [|unfold open_read; rewrite Hd; reflexivity].
  erewrite bindP_done by apply lift_files_to_add_gen.
  set (t := universal_newlines raw).
  fold (before_sources (draws_world m) t).
  unfold bindP at 1. unfold lift. rewrite add_build_refs_run.
  rewrite files_of_set_used. cbn [urandom drawn fs_file fs_writable events].
  unfold patched, machine_at_write, draws_made, jobs_of.
  cbn [urandom drawn draws_world].
  destruct (re_search sources_pattern (before_sources (draws_world m) t))
    as [sm|].
  - cbv zeta. cbn [length files_of drawn]. unfold set_used.
    cbn [disk write_denied write_room linesep stdout_room flush_fails draws
         used printed].
    replace (3 + (3 + used m)) with (6 + used m) by lia. reflexivity.
  - cbn [drawn]. unfold set_used.
    cbn [disk write_denied write_room linesep stdout_room flush_fails draws
         used printed]. reflexivity.
Qed.

(** Whether [n] more units fit. *)
Definition fits (room : option nat) (n : nat) : bool :=
  match room with
  | Some k => n <=? k
  | None => true
  end.

Definition room_left (room : option nat) (n : nat) : option nat :=
  match room with
  | Some k => Some (k - n)
  | None => None
  end.

Definition set_stdout (room : option nat) (lines : list str) (m : Machine)
  : Machine :=
  mkMachine (disk m) (write_denied m) (write_room m) (linesep m) room
            (flush_fails m) (draws m) (used m) lines.

Lemma print_line_fits (line : str) (m : Machine) :
  fits (stdout_room m) 1 = true ->
  print_line line m
  = (Done tt, set_stdout (room_left (stdout_room m) 1) (printed m ++ [line]) m).
Proof.
  unfold print_line, fits, room_left, set_stdout.
  destruct (stdout_room m) as [[|k]|]; intros H; try discriminate.
  - replace (S k - 1) with k by lia. reflexivity.
  - reflexivity.
Qed.

Lemma print_line_full (line : str) (m : Machine) :
  stdout_room m = Some 0 -> print_line line m = (Abort StdoutError, m).
Proof. unfold print_line. intros ->. reflexivity. Qed.

Definition print_lines (lines : list str) : P unit :=
  fold_right (fun line rest => let? _ := print_line line in rest) (retP tt)
             lines.

Lemma print_entries_lines (files : list entry) :
  print_entries files = print_lines (map confirmation_line files).
Proof.
  induction files as [|e rest IH]; [reflexivity|].
  cbn [print_entries map print_lines fold_right]. rewrite IH. reflexivity.
Qed.

Lemma fits_le (room : option nat) (n n' : nat) :
  n' <= n -> fits room n = true -> fits room n' = true.
Proof.
  unfold fits. destruct room as [k|]; [|reflexivity].
  intros Hle H. apply Nat.leb_le. apply Nat.leb_le in H. lia.
Qed.

Lemma print_lines_fits (lines : list str) :
  forall m, fits (stdout_room m) (length lines) = true ->
  print_lines lines m
  = (Done tt, set_stdout (room_left (stdout_room m) (length lines))
                         (printed m ++ lines) m).
Proof.
  induction lines as [|l rest IH]; intros m H.
  - cbn [print_lines fold_right length]. unfold retP, set_stdout, room_left.
    rewrite app_nil_r. destruct m as [? ? ? ? [k|] ? ? ? ?];
      cbn [stdout_room disk write_denied write_room linesep flush_fails draws
           used printed]; [rewrite Nat.sub_0_r|]; reflexivity.
  - cbn [print_lines fold_right length] in *.
    assert (H1 : fits (stdout_room m) 1 = true)
      by (apply (fits_le _ (S (length rest))); [lia|exact H]).
    erewrite bindP_done by (apply print_line_fits, H1).
    fold (print_lines rest). rewrite IH.
    + unfold set_stdout, room_left.
      cbn [stdout_room disk write_denied write_room linesep flush_fails draws
           used printed].
      rewrite <- app_assoc.
      destruct (stdout_room m) as [k|]; [|reflexivity].
      replace (k - 1 - length rest) with (k - S (length rest)) by lia.
      reflexivity.
    + unfold set_stdout. cbn [stdout_room].
      unfold fits, room_left in *. destruct (stdout_room m) as [k|];
        [|reflexivity].
      apply Nat.leb_le. apply Nat.leb_le in H. lia.
Qed.

Lemma print_lines_full (lines : list str) :
  forall m k, stdout_room m = Some k -> k < length lines ->
  print_lines lines m
  = (Abort StdoutError, set_stdout (Some 0) (printed m ++ take k lines) m).
Proof.
  induction lines as [|l rest IH]; intros m k Hk Hlt;
    [cbn [length] in Hlt; lia|].
  cbn [print_lines fold_right length] in *. destruct k as [|k].
  - erewrite bindP_abort by (apply print_line_full, Hk).
    unfold set_stdout. cbn [take]. rewrite app_nil_r, <- Hk.
    destruct m; reflexivity.
  - erewrite bindP_done by (apply print_line_fits; rewrite Hk; reflexivity).
    fold (print_lines rest). rewrite (IH _ k).
    + unfold set_stdout.
      cbn [stdout_room disk write_denied write_room linesep flush_fails draws
           used printed take].
      rewrite <- app_assoc. reflexivity.
    + unfold set_stdout, room_left. cbn [stdout_room]. rewrite Hk.
      f_equal. lia.
    + lia.
Qed.

Lemma script_prints (m : Machine) (files : list entry) :
  (let? _ := print_line confirmation_header in print_entries files) m
  = print_lines (confirmation_header :: map confirmation_line files) m.
Proof. rewrite print_entries_lines. reflexivity. Qed.

End ProcessRun.

(** ** Newline translation *)

Section Newlines.

Lemma universal_newlines_other (c : ascii) (rest : str) :
  c <> cr -> universal_newlines (c :: rest) = c :: universal_newlines rest.
Proof.
  intros Hc. cbn [universal_newlines].
  destruct (Ascii.eqb c cr) eqn:E; [apply Ascii.eqb_eq in E; contradiction|].
  reflexivity.
Qed.

Lemma universal_newlines_cr_lf (rest : str) :
  universal_newlines (cr :: nl :: rest) = nl :: universal_newlines rest.
Proof. reflexivity. Qed.

Lemma universal_newlines_cr (rest : str) :
  (forall rest', rest <> nl :: rest') ->
  universal_newlines (cr :: rest) = nl :: universal_newlines rest.
Proof.
  intros H. destruct rest as [|c rest']; [reflexivity|].
  cbn [universal_newlines]. change (Ascii.eqb cr cr) with true. cbv iota.
  destruct (Ascii.eqb c nl) eqn:E; [|reflexivity].
  apply Ascii.eqb_eq in E. subst c. exfalso. apply (H rest'). reflexivity.
Qed.

Lemma has_cons (c x : ascii) (s : str) :
  has c (x :: s) = Ascii.eqb c x || has c s.
Proof. reflexivity. Qed.

(** A text without CR is read as it is. *)
Lemma universal_newlines_id (s : str) :
  has cr s = false -> universal_newlines s = s.
Proof.
  induction s as [|c s IH]; [reflexivity|]. rewrite has_cons.
  intros H. apply orb_false_iff in H as [Hc Hs].
  rewrite universal_newlines_other, (IH Hs); [reflexivity|].
  intros ->. discriminate.
Qed.

(** The text handed to the script holds no CR. *)
Lemma universal_newlines_no_cr (s : str) :
  has cr (universal_newlines s) = false.
Proof.
  induction s as [s IH] using (induction_ltof1 _ (@length ascii)).
  unfold ltof in IH. destruct s as [|c rest]; [reflexivity|].
  destruct (Ascii.eqb c cr) eqn:E.
  - apply Ascii.eqb_eq in E. subst c. destruct rest as [|c' rest'];
      [reflexivity|]. destruct (Ascii.eqb c' nl) eqn:E'.
    + apply Ascii.eqb_eq in E'. subst c'. rewrite universal_newlines_cr_lf.
      rewrite has_cons. rewrite IH by (cbn [length]; lia). reflexivity.
    + rewrite universal_newlines_cr.
      * rewrite has_cons, IH by (cbn [length]; lia). reflexivity.
      * intros r' [= -> _]. discriminate.
  - rewrite universal_newlines_other.
    + rewrite has_cons, IH by (cbn [length]; lia).
      rewrite Ascii.eqb_sym, E. reflexivity.
    + intros ->. discriminate.
Qed.

(** With LF as the line separator the text is written as it is. *)
Lemma write_newlines_lf (s : str) : write_newlines [nl] s = s.
Proof.
  unfold write_newlines. induction s as [|c s IH]; [reflexivity|].
  cbn [map concat]. rewrite IH.
  destruct (Ascii.eqb c nl) eqn:E; [|reflexivity].
  apply Ascii.eqb_eq in E. subst c. reflexivity.
Qed.

Lemma write_newlines_cons (ls : str) (c : ascii) (s : str) :
  write_newlines ls (c :: s)
  = (if Ascii.eqb c nl then ls else [c]) ++ write_newlines ls s.
Proof. reflexivity. Qed.

(** What was written without CR, with LF or CR LF as the line separator,
    is read back as it was. *)
Lemma read_back (ls s : str) :
  ls = [nl] \/ ls = [cr; nl] -> has cr s = false ->
  universal_newlines (write_newlines ls s) = s.
Proof.
  intros Hls. induction s as [|c s IH]; [reflexivity|].
  rewrite has_cons. intros H. apply orb_false_iff in H as [Hc Hs].
  rewrite write_newlines_cons. destruct (Ascii.eqb c nl) eqn:E.
  - apply Ascii.eqb_eq in E. subst c.
    destruct Hls as [-> | ->]; cbn [app].
    + rewrite universal_newlines_other, (IH Hs); [reflexivity|discriminate].
    + rewrite universal_newlines_cr_lf, (IH Hs). reflexivity.
  - cbn [app]. rewrite universal_newlines_other, (IH Hs); [reflexivity|].
    intros ->. discriminate.
Qed.

(** The text read splits where the file does. *)
Lemma universal_newlines_split (raw : str) :
  forall s1 s2, universal_newlines raw = s1 ++ s2 ->
  exists r1 r2, raw = r1 ++ r2 /\ universal_newlines r1 = s1
                /\ universal_newlines r2 = s2.
Proof.
  induction raw as [raw IH] using (induction_ltof1 _ (@length ascii)).
  unfold ltof in IH. intros [|x s1] s2 H.
  - exists [], raw. auto.
  - destruct raw as [|c rest]; [discriminate|].
    destruct (Ascii.eqb c cr) eqn:E.
    + apply Ascii.eqb_eq in E. subst c.
      destruct rest as [|c' rest'].
      * cbn in H. injection H as <- H. destruct s1; [|discriminate].
        exists [cr], []. cbn in H. subst s2. auto.
      * destruct (Ascii.eqb c' nl) eqn:E'.
        -- apply Ascii.eqb_eq in E'. subst c'.
           rewrite universal_newlines_cr_lf in H. injection H as <- H.
           destruct (IH rest' ltac:(cbn [length]; lia) _ _ H)
             as (r1 & r2 & -> & <- & <-).
           exists (cr :: nl :: r1), r2. auto.
        -- assert (Hne : forall r', c' :: rest' <> nl :: r').
           { intros r' [= -> _]. discriminate. }
           rewrite universal_newlines_cr in H by exact Hne.
           injection H as <- H.
           destruct (IH (c' :: rest') ltac:(cbn [length]; lia) _ _ H)
             as (r1 & r2 & Hraw & <- & <-).
           exists (cr :: r1), r2. split; [cbn [app]; rewrite Hraw; reflexivity|].
           split; [|reflexivity]. apply universal_newlines_cr.
           intros r' ->. apply (Hne (r' ++ r2)). rewrite Hraw. reflexivity.
    + assert (Hc : c <> cr) by (intros ->; discriminate).
      rewrite universal_newlines_other in H by exact Hc.
      injection H as <- H.
      destruct (IH rest ltac:(cbn [length]; lia) _ _ H)
        as (r1 & r2 & -> & <- & <-).
      exists (c :: r1), r2. split; [reflexivity|]. split; [|reflexivity].
      apply universal_newlines_other, Hc.
Qed.

(** A stretch of the text read without LF is a stretch of the file. *)
Lemma universal_newlines_plain (r p : str) :
  universal_newlines r = p -> has nl p = false -> r = p.
Proof.
  revert p. induction r as [|c r IH]; intros p H Hp; [exact H|].
  destruct (Ascii.eqb c cr) eqn:E.
  - apply Ascii.eqb_eq in E. subst c. exfalso.
    destruct r as [|c' r']; [subst p; discriminate|].
    cbn [universal_newlines] in H. change (Ascii.eqb cr cr) with true in H.
    cbv iota in H. destruct (Ascii.eqb c' nl); subst p; discriminate.
  - assert (Hc : c <> cr) by (intros ->; discriminate).
    rewrite universal_newlines_other in H by exact Hc. subst p.
    rewrite has_cons in Hp. apply orb_false_iff in Hp as [_ Hp].
    f_equal. exact (IH _ eq_refl Hp).
Qed.

Lemma occ_decompose (p : str) (i : nat) (d : str) :
  p <> [] -> occ p i d ->
  exists pre post, d = pre ++ p ++ post /\ length pre = i.
Proof.
  intros Hp H. destruct (occ_split p i d H Hp) as [Heq Hle].
  exists (take i d), (drop (i + length p) d). split; [exact Heq|].
  rewrite length_take. lia.
Qed.

(** An anchor found in the text read occurs in the file. *)
Lemma occ_read (p raw : str) (i : nat) :
  p <> [] -> has nl p = false -> occ p i (universal_newlines raw) ->
  exists j, occ p j raw.
Proof.
  intros Hne Hp H.
  destruct (occ_decompose p i _ Hne H) as (pre & post & Heq & _).
  destruct (universal_newlines_split raw _ _ Heq) as (r1 & r2 & -> & _ & H2).
  destruct (universal_newlines_split r2 _ _ H2) as (rp & r3 & -> & Hrp & _).
  apply universal_newlines_plain in Hrp; [|exact Hp]. subst rp.
  exists (length r1). apply occ_app.
Qed.

Lemma occ_read_pair (p s raw : str) (i j : nat) :
  p <> [] -> s <> [] -> has nl p = false -> has nl s = false ->
  occ p i (universal_newlines raw) -> occ s j (universal_newlines raw) ->
  i + length p <= j ->
  exists i' j', occ p i' raw /\ occ s j' raw /\ i' + length p <= j'.
Proof.
  intros Hpne Hsne Hp Hs Hi Hj Hle.
  destruct (occ_decompose p i _ Hpne Hi) as (pre & post & Heq & Hlen).
  assert (Hpost : occ s (j - (i + length p)) post).
  { intros k c Hk. specialize (Hj k c Hk). rewrite Heq in Hj.
    rewrite lookup_app_r in Hj by lia. rewrite lookup_app_r in Hj by lia.
    rewrite <- Hj. f_equal. lia. }
  destruct (occ_decompose s _ _ Hsne Hpost) as (mid & post' & -> & _).
  destruct (universal_newlines_split raw _ _ Heq) as (r1 & r2 & -> & _ & H2).
  destruct (universal_newlines_split r2 _ _ H2) as (rp & r3 & -> & Hrp & H3).
  destruct (universal_newlines_split r3 _ _ H3) as (r4 & r5 & -> & _ & H5).
  destruct (universal_newlines_split r5 _ _ H5) as (rs & r6 & -> & Hrs & _).
  apply universal_newlines_plain in Hrp; [|exact Hp]. subst rp.
  apply universal_newlines_plain in Hrs; [|exact Hs]. subst rs.
  exists (length r1), (length (r1 ++ p ++ r4)). split; [apply occ_app|].
  split.
  - replace (r1 ++ p ++ r4 ++ s ++ r6) with ((r1 ++ p ++ r4) ++ s ++ r6)
      by (rewrite <- !app_assoc; reflexivity).
    apply occ_app.
  - rewrite !length_app. lia.
Qed.

(** An anchor that is not in the file is not in the text read. *)
Lemma not_found_read (p raw : str) :
  p <> [] -> has nl p = false ->
  re_search (map Chr p) raw = None ->
  re_search (map Chr p) (universal_newlines raw) = None.
Proof.
  intros Hne Hp H. apply re_search_lit_None. intros j Hj.
  destruct (occ_read p raw j Hne Hp Hj) as [j' Hj'].
  rewrite re_search_lit_None in H. exact (H j' Hj').
Qed.

Lemma not_found_read_lazy (p s raw : str) :
  p <> [] -> s <> [] -> has nl p = false -> has nl s = false ->
  re_search (map Chr p ++ LazyAny :: map Chr s) raw = None ->
  re_search (map Chr p ++ LazyAny :: map Chr s) (universal_newlines raw) = None.
Proof.
  intros Hpne Hsne Hp Hs H.
  destruct (re_search _ (universal_newlines raw)) as [m|] eqn:E; [|reflexivity].
  exfalso. destruct (re_search_lazy_Some p s _ m Hsne E) as (Hi & Hb & Hj).
  destruct (occ_read_pair p s raw _ _ Hpne Hsne Hp Hs Hi Hj ltac:(lia))
    as (i' & j' & Hi' & Hj' & Hle).
  exact (re_search_lazy_found p s raw i' j' Hsne Hi' Hj' Hle H).
Qed.

(** Without anchors in the file, no step finds one. *)
Lemma no_anchor_read (raw : str) :
  re_search file_ref_pattern raw = None ->
  re_search group_pattern raw = None ->
  re_search sources_pattern raw = None ->
  let t := universal_newlines raw in
  re_search file_ref_pattern t = None
  /\ re_search group_pattern t = None
  /\ re_search sources_pattern t = None.
Proof.
  intros H1 H2 H3. cbv zeta. repeat split.
  - rewrite file_ref_pattern_shape in *.
    apply not_found_read_lazy; try discriminate; try reflexivity. exact H1.
  - rewrite group_pattern_shape in *.
    apply not_found_read; try discriminate; try reflexivity. exact H2.
  - rewrite sources_pattern_shape in *.
    apply not_found_read; try discriminate; try reflexivity. exact H3.
Qed.

Lemma has_insert_at (c : ascii) (q : nat) (t d : str) :
  has c (insert_at q t d) = has c t || has c d.
Proof.
  unfold insert_at. rewrite !has_app.
  rewrite <- (take_drop q d) at 3. rewrite has_app.
  destruct (has c (take q d)), (has c t), (has c (drop q d)); reflexivity.
Qed.

End Newlines.

(** ** How a run ends *)

Section ProcessCases.

Variable m : Machine.
Variable raw : str.
Hypothesis Hdisk : disk m = Chars raw.

(** The text read, the text handed to [write], and what reaches the
    file. *)
Let t : str := universal_newlines raw.
Let w : World := draws_world m.
Let out : str := write_newlines (linesep m) (patched w t).

Lemma open_write_at_write (content : str) :
  open_write content (machine_at_write m t)
  = if write_denied m then (Abort PermissionDenied, machine_at_write m t)
    else
      let o := write_newlines (linesep m) content in
      if fits (write_room m) (length o)
      then (Done tt, set_disk (Chars o) (machine_at_write m t))
      else (Abort DeviceError,
            set_disk (Chars (take (default 0 (write_room m)) o))
                     (machine_at_write m t)).
Proof.
  unfold open_write, machine_at_write, set_used, fits.
  cbn [write_denied write_room linesep].
  destruct (write_denied m); [reflexivity|].
  destruct (write_room m) as [k|]; [|reflexivity]. cbv zeta.
  cbn [default]. rewrite Nat.ltb_antisym.
  destruct (length (write_newlines (linesep m) content) <=? k); reflexivity.
Qed.


Lemma process_write_denied :
  write_denied m = true ->
  process m = (Traceback PermissionDenied, machine_at_write m t).
Proof.
  intros Hw. unfold process. rewrite (script_to_write m raw Hdisk).
  erewrite bindP_abort; [reflexivity|].
  fold t. rewrite open_write_at_write, Hw. reflexivity.
Qed.

Lemma process_write_short (k : nat) :
  write_denied m = false -> write_room m = Some k -> k < length out ->
  process m = (Traceback DeviceError,
               set_disk (Chars (take k out)) (machine_at_write m t)).
Proof.
  intros Hw Hroom Hk. unfold process. rewrite (script_to_write m raw Hdisk).
  erewrite bindP_abort; [reflexivity|].
  fold t w. rewrite open_write_at_write, Hw. cbv zeta. fold out.
  unfold fits. rewrite Hroom. cbn [default].
  destruct (Nat.leb_spec (length out) k); [lia|reflexivity].
Qed.

(** The machine once the text is in the file. *)
Definition machine_written : Machine :=
  set_disk (Chars out) (machine_at_write m t).

Lemma script_written :
  write_denied m = false -> fits (write_room m) (length out) = true ->
  script m = print_lines (confirmation w) machine_written.
Proof.
  intros Hw Hroom. rewrite (script_to_write m raw Hdisk).
  erewrite bindP_done.
  2: { fold t w. rewrite open_write_at_write, Hw. cbv zeta. fold out.
       rewrite Hroom. reflexivity. }
  fold w. rewrite script_prints. reflexivity.
Qed.

Lemma process_stdout_full (k : nat) :
  write_denied m = false -> fits (write_room m) (length out) = true ->
  stdout_room m = Some k -> k < 4 ->
  process m = (Traceback StdoutError,
               set_stdout (Some 0) (printed m ++ take k (confirmation w))
                          machine_written).
Proof.
  intros Hw Hroom Hout Hk. unfold process.
  rewrite (script_written Hw Hroom).
  rewrite (print_lines_full _ _ k); [reflexivity|exact Hout|].
  unfold confirmation, files_of. cbn [length map]. exact Hk.
Qed.

Lemma process_done :
  write_denied m = false -> fits (write_room m) (length out) = true ->
  fits (stdout_room m) 4 = true ->
  process m = (if flush_fails m then Exit120 else Exit0,
               set_stdout (room_left (stdout_room m) 4)
                          (printed m ++ confirmation w) machine_written).
Proof.
  intros Hw Hroom Hout. unfold process.
  rewrite (script_written Hw Hroom).
  rewrite print_lines_fits; [reflexivity|].
  unfold confirmation, files_of. cbn [length map]. exact Hout.
Qed.

End ProcessCases.

(** ** The edits add no CR *)

Section NoCarriageReturn.

Lemma files_of_no_cr (w : World) : Forall (plain cr) (files_of w).
Proof.
  unfold files_of.
  repeat constructor; cbn [fst snd]; try reflexivity;
    apply has_new_id; reflexivity.
Qed.

Lemma jobs_from_no_cr (r : nat -> N) (files : list entry) :
  Forall (plain cr) files ->
  forall k, Forall (fun job => plain cr (fst job) /\ has cr (snd job) = false)
                   (jobs_from r k files).
Proof.
  intros H. induction H as [|e files He H IH]; intros k; [constructor|].
  cbn [jobs_from]. constructor; [|apply IH]. cbn [fst snd].
  split; [exact He|]. apply has_new_id. reflexivity.
Qed.

Lemma file_ref_line_no_cr (e : entry) :
  plain cr e -> has cr (file_ref_line e) = false.
Proof.
  destruct e as [fn id]. intros [Hfn Hid]. cbn [fst snd] in Hfn, Hid.
  unfold file_ref_line. rewrite !has_app, Hfn, Hid. reflexivity.
Qed.

Lemma group_line_no_cr (e : entry) :
  plain cr e -> has cr (group_line e) = false.
Proof.
  destruct e as [fn id]. intros [Hfn Hid]. cbn [fst snd] in Hfn, Hid.
  unfold group_line. rewrite !has_app, Hfn, Hid. reflexivity.
Qed.

Lemma build_file_entry_no_cr (e : entry) (build_id : str) :
  plain cr e -> has cr build_id = false ->
  has cr (build_file_entry e build_id) = false.
Proof.
  destruct e as [fn id]. intros [Hfn Hid] Hb. cbn [fst snd] in Hfn, Hid.
  unfold build_file_entry. rewrite !has_app, Hfn, Hid, Hb. reflexivity.
Qed.

Lemma sources_line_no_cr (e : entry) (build_id : str) :
  plain cr e -> has cr build_id = false ->
  has cr (sources_line e build_id) = false.
Proof.
  destruct e as [fn id]. intros [Hfn Hid] Hb. cbn [fst snd] in Hfn, Hid.
  unfold sources_line. rewrite !has_app, Hfn, Hb. reflexivity.
Qed.

Lemma add_file_refs_no_cr (files : list entry) (d : str) :
  Forall (plain cr) files -> has cr d = false ->
  has cr (add_file_refs files d) = false.
Proof.
  intros Hf Hd. unfold add_file_refs.
  destruct (re_search file_ref_pattern d); [|exact Hd]. cbv zeta.
  rewrite has_insert_at, Hd, has_app, has_join; [reflexivity..|].
  apply Forall_map. eapply Forall_impl; [exact Hf|].
  intros e He. apply file_ref_line_no_cr, He.
Qed.

Lemma add_group_refs_no_cr (files : list entry) (d : str) :
  Forall (plain cr) files -> has cr d = false ->
  has cr (add_group_refs files d) = false.
Proof.
  intros Hf Hd. unfold add_group_refs.
  destruct (re_search group_pattern d); [|exact Hd]. cbv zeta.
  rewrite has_insert_at, Hd, has_app, has_join; [reflexivity..|].
  apply Forall_map. eapply Forall_impl; [exact Hf|].
  intros e He. apply group_line_no_cr, He.
Qed.

Lemma loop_content_no_cr (jobs : list (entry * str)) :
  Forall (fun job => plain cr (fst job) /\ has cr (snd job) = false) jobs ->
  forall d, has cr d = false -> has cr (loop_content jobs d) = false.
Proof.
  unfold loop_content. intros H.
  induction H as [|job jobs [He Hb] H IH]; intros d Hd; [exact Hd|].
  cbn [fold_left]. apply IH. unfold build_step, add_build_file.
  destruct (re_search build_file_pattern d); [|exact Hd]. cbv zeta.
  rewrite has_insert_at, Hd, has_app, build_file_entry_no_cr by assumption.
  reflexivity.
Qed.

Lemma patched_no_cr (w : World) (d : str) :
  has cr d = false -> has cr (patched w d) = false.
Proof.
  intros Hd.
  assert (Hb : has cr (before_sources w d) = false).
  { unfold before_sources.
    apply add_group_refs_no_cr, add_file_refs_no_cr;
      auto using files_of_no_cr. }
  assert (Hj : Forall (fun job => plain cr (fst job) /\ has cr (snd job) = false)
                      (jobs_of w))
    by (apply jobs_from_no_cr, files_of_no_cr).
  unfold patched. cbv zeta.
  destruct (re_search sources_pattern (before_sources w d)); [|exact Hb].
  rewrite has_insert_at, (loop_content_no_cr _ Hj _ Hb), has_app, has_join;
    [reflexivity..|].
  unfold loop_refs. apply Forall_map. eapply Forall_impl; [exact Hj|].
  intros job [He Hid]. apply sources_line_no_cr; assumption.
Qed.

End NoCarriageReturn.

(** ** Anchors of the file in the text read *)

Section AnchorsRead.

Lemma universal_newlines_app (r1 : str) :
  forall r2, (forall r', r2 <> nl :: r') ->
  universal_newlines (r1 ++ r2) = universal_newlines r1 ++ universal_newlines r2.
Proof.
  induction r1 as [r1 IH] using (induction_ltof1 _ (@length ascii)).
  unfold ltof in IH. intros r2 H2. destruct r1 as [|c rest]; [reflexivity|].
  destruct (Ascii.eqb c cr) eqn:E.
  - apply Ascii.eqb_eq in E. subst c. destruct rest as [|c' rest'].
    + cbn [app]. rewrite (universal_newlines_cr r2 H2). reflexivity.
    + destruct (Ascii.eqb c' nl) eqn:E'.
      * apply Ascii.eqb_eq in E'. subst c'. cbn [app].
        rewrite !universal_newlines_cr_lf, IH by (cbn [length]; lia || exact H2).
        reflexivity.
      * assert (Hne : forall r', c' :: rest' <> nl :: r').
        { intros r' [= -> _]. discriminate. }
        change ((cr :: c' :: rest') ++ r2) with (cr :: (c' :: rest') ++ r2).
        rewrite universal_newlines_cr.
        2: { intros r' [= -> _]. discriminate. }
        rewrite (universal_newlines_cr _ Hne).
        rewrite IH by (cbn [length]; lia || exact H2). reflexivity.
  - assert (Hc : c <> cr) by (intros ->; discriminate).
    cbn [app]. rewrite !universal_newlines_other by exact Hc.
    rewrite IH by (cbn [length]; lia || exact H2). reflexivity.
Qed.

Lemma universal_newlines_lit (p r : str) :
  has cr p = false ->
  universal_newlines (p ++ r) = p ++ universal_newlines r.
Proof.
  induction p as [|c p IH]; [reflexivity|]. rewrite has_cons.
  intros H. apply orb_false_iff in H as [Hc Hp]. cbn [app].
  rewrite universal_newlines_other, (IH Hp); [reflexivity|].
  intros ->. discriminate.
Qed.

Lemma lit_not_nl (p r r' : str) :
  p <> [] -> has nl p = false -> p ++ r <> nl :: r'.
Proof.
  destruct p as [|c p]; [congruence|]. intros _ H [= -> _]. discriminate.
Qed.

Lemma universal_newlines_around (a p b : str) :
  p <> [] -> has cr p = false -> has nl p = false ->
  universal_newlines (a ++ p ++ b)
  = universal_newlines a ++ p ++ universal_newlines b.
Proof.
  intros Hne Hcr Hnl. rewrite universal_newlines_app.
  - rewrite universal_newlines_lit by exact Hcr. reflexivity.
  - intros r'. apply lit_not_nl; assumption.
Qed.

(** An anchor of the file occurs in the text read. *)
Lemma occ_file (p raw : str) (i : nat) :
  p <> [] -> has cr p = false -> has nl p = false -> occ p i raw ->
  exists j, occ p j (universal_newlines raw).
Proof.
  intros Hne Hcr Hnl H.
  destruct (occ_decompose p i raw Hne H) as (a & b & -> & _).
  rewrite universal_newlines_around by assumption.
  eexists. apply occ_app.
Qed.

Lemma occ_file_pair (p s raw : str) (i j : nat) :
  p <> [] -> s <> [] ->
  has cr p = false -> has nl p = false ->
  has cr s = false -> has nl s = false ->
  occ p i raw -> occ s j raw -> i + length p <= j ->
  exists i' j', occ p i' (universal_newlines raw)
                /\ occ s j' (universal_newlines raw) /\ i' + length p <= j'.
Proof.
  intros Hpne Hsne Hpc Hpn Hsc Hsn Hi Hj Hle.
  destruct (occ_decompose p i raw Hpne Hi) as (a & post & Heq & Hlen).
  assert (Hpost : occ s (j - (i + length p)) post).
  { intros k c Hk. specialize (Hj k c Hk). rewrite Heq in Hj.
    rewrite lookup_app_r in Hj by lia. rewrite lookup_app_r in Hj by lia.
    rewrite <- Hj. f_equal. lia. }
  destruct (occ_decompose s _ _ Hsne Hpost) as (b & c & -> & _). subst raw.
  rewrite universal_newlines_around by assumption.
  rewrite universal_newlines_around by assumption.
  exists (length (universal_newlines a)),
         (length (universal_newlines a ++ p ++ universal_newlines b)).
  split; [apply occ_app|]. split.
  - replace (universal_newlines a ++ p ++ universal_newlines b ++ s
             ++ universal_newlines c)
      with ((universal_newlines a ++ p ++ universal_newlines b) ++ s
            ++ universal_newlines c)
      by (rewrite <- !app_assoc; reflexivity).
    apply occ_app.
  - rewrite !length_app. lia.
Qed.

Lemma found_file (p raw : str) :
  p <> [] -> has cr p = false -> has nl p = false ->
  re_search (map Chr p) raw <> None ->
  re_search (map Chr p) (universal_newlines raw) <> None.
Proof.
  intros Hne Hcr Hnl H.
  destruct (re_search (map Chr p) raw) as [m|] eqn:E; [|congruence].
  apply re_search_lit_Some in E as (Hocc & _); [|exact Hne].
  destruct (occ_file p raw _ Hne Hcr Hnl Hocc) as [j Hj].
  intros Hnone. rewrite re_search_lit_None in Hnone. exact (Hnone j Hj).
Qed.

Lemma found_file_lazy (p s raw : str) :
  p <> [] -> s <> [] ->
  has cr p = false -> has nl p = false ->
  has cr s = false -> has nl s = false ->
  re_search (map Chr p ++ LazyAny :: map Chr s) raw <> None ->
  re_search (map Chr p ++ LazyAny :: map Chr s) (universal_newlines raw) <> None.
Proof.
  intros Hpne Hsne Hpc Hpn Hsc Hsn H.
  destruct (re_search _ raw) as [m|] eqn:E; [|congruence].
  destruct (re_search_lazy_Some p s raw m Hsne E) as (Hi & Hb & Hj).
  destruct (occ_file_pair p s raw _ _ Hpne Hsne Hpc Hpn Hsc Hsn Hi Hj
              ltac:(lia)) as (i' & j' & Hi' & Hj' & Hle).
  exact (re_search_lazy_found p s _ i' j' Hsne Hi' Hj' Hle).
Qed.

(** The anchors and the section header of the file are found in the text
    read. *)
Lemma anchors_read (raw : str) :
  (re_search file_ref_pattern raw <> None ->
   re_search file_ref_pattern (universal_newlines raw) <> None)
  /\ (re_search group_pattern raw <> None ->
      re_search group_pattern (universal_newlines raw) <> None)
  /\ (re_search sources_pattern raw <> None ->
      re_search sources_pattern (universal_newlines raw) <> None)
  /\ (re_search build_file_pattern raw <> None ->
      re_search build_file_pattern (universal_newlines raw) <> None).
Proof.
  rewrite file_ref_pattern_shape, group_pattern_shape, sources_pattern_shape,
    build_file_pattern_shape.
  repeat split.
  - apply found_file_lazy; try discriminate; reflexivity.
  - apply found_file; try discriminate; reflexivity.
  - apply found_file; try discriminate; reflexivity.
  - apply found_file; try discriminate; reflexivity.
Qed.

End AnchorsRead.

(** * The claims on the process *)

(** An identifier as the project file needs it. *)
Definition well_formed_id (id : str) : Prop :=
  length id = 24 /\ forallb is_upper_hex id = true.

(** The text that lines 16-66 make of [d] with the entries [files] and
    the build identifiers [build_ids]. *)
Definition patched_with (files : list entry) (build_ids : list str) (d : str)
  : str :=
  let content := add_group_refs files (add_file_refs files d) in
  match re_search sources_pattern content with
  | Some sources_match =>
      insert_at (m_end sources_match)
                ([nl] ++ join [nl] (loop_refs (combine files build_ids)))
                (loop_content (combine files build_ids) content)
  | None => content
  end.

Section ProcessClaims.

Lemma process_exit0 (m : Machine) (raw : str) :
  disk m = Chars raw -> fst (process m) = Exit0 ->
  write_denied m = false
  /\ fits (write_room m)
          (length (write_newlines (linesep m)
                     (patched (draws_world m) (universal_newlines raw)))) = true
  /\ fits (stdout_room m) 4 = true
  /\ flush_fails m = false.
Proof.
  intros Hd H.
  destruct (write_denied m) eqn:Hw.
  { rewrite (process_write_denied m raw Hd Hw) in H. discriminate. }
  destruct (fits (write_room m) _) eqn:Hr.
  2: { unfold fits in Hr. destruct (write_room m) as [k|] eqn:Hk;
         [|discriminate].
       apply Nat.leb_gt in Hr.
       rewrite (process_write_short m raw Hd k Hw Hk Hr) in H. discriminate. }
  destruct (fits (stdout_room m) 4) eqn:Hs.
  2: { unfold fits in Hs. destruct (stdout_room m) as [k|] eqn:Hk;
         [|discriminate].
       apply Nat.leb_gt in Hs.
       rewrite (process_stdout_full m raw Hd k Hw Hr Hk Hs) in H.
       discriminate. }
  rewrite (process_done m raw Hd Hw Hr Hs) in H. cbn [fst] in H.
  destruct (flush_fails m); [discriminate|]. auto.
Qed.

(** What a run that exits with status 0 leaves behind. *)
Lemma process_exit0_run (m : Machine) (raw : str) :
  disk m = Chars raw -> fst (process m) = Exit0 ->
  disk (snd (process m))
  = Chars (write_newlines (linesep m)
             (patched (draws_world m) (universal_newlines raw)))
  /\ printed (snd (process m)) = printed m ++ confirmation (draws_world m)
  /\ used (snd (process m))
     = draws_made (draws_world m) (universal_newlines raw) + used m.
Proof.
  intros Hd H. destruct (process_exit0 m raw Hd H) as (Hw & Hr & Hs & _).
  rewrite (process_done m raw Hd Hw Hr Hs). cbn [snd].
  repeat split.
Qed.

Lemma confirmation_line_spelled (id1 id2 id3 : str) :
  confirmation_header
  :: map confirmation_line [(lit "BlockedUsersManager.swift", id1);
                            (lit "BlockedUsersView.swift", id2);
                            (lit "TermsOfService.swift", id3)]
  = [lit "Successfully added files to Xcode project:";
     lit "  - BlockedUsersManager.swift (" ++ id1 ++ lit ")";
     lit "  - BlockedUsersView.swift (" ++ id2 ++ lit ")";
     lit "  - TermsOfService.swift (" ++ id3 ++ lit ")"].
Proof. reflexivity. Qed.

Lemma confirmation_spelled (m : Machine) :
  confirmation (draws_world m)
  = [lit "Successfully added files to Xcode project:";
     lit "  - BlockedUsersManager.swift (" ++ new_id (draws m (used m))
       ++ lit ")";
     lit "  - BlockedUsersView.swift (" ++ new_id (draws m (1 + used m))
       ++ lit ")";
     lit "  - TermsOfService.swift (" ++ new_id (draws m (2 + used m))
       ++ lit ")"].
Proof.
  unfold confirmation, files_of, draw.
  cbn [urandom drawn draws_world Nat.add].
  apply confirmation_line_spelled.
Qed.

Lemma patched_no_anchor (w : World) (d : str) :
  re_search file_ref_pattern d = None ->
  re_search group_pattern d = None ->
  re_search sources_pattern d = None ->
  patched w d = d.
Proof.
  intros H1 H2 H3. unfold patched, before_sources, add_file_refs.
  rewrite H1. unfold add_group_refs. rewrite H2, H3. reflexivity.
Qed.

(** C3, the case that refutes the claim as stated: a file with CR LF line
    ends and no anchor.  The run exits with status 0 and the file is not
    as it was: it is written back with LF line ends, two characters
    shorter. *)
Lemma no_anchor_crlf_rewritten :
  re_search file_ref_pattern doc_crlf = None
  /\ re_search group_pattern doc_crlf = None
  /\ re_search sources_pattern doc_crlf = None
  /\ fst (process (machine_of doc_crlf)) = Exit0
  /\ disk (machine_of doc_crlf)
     = Chars (lit "// a" ++ [cr; nl] ++ lit "// b" ++ [cr; nl])
  /\ disk (snd (process (machine_of doc_crlf)))
     = Chars (lit "// a" ++ [nl] ++ lit "// b" ++ [nl]).
Proof. vm_compute. repeat split. Qed.

(** C3, amended.  When none of the three anchor patterns occurs in the
    file, and the file can be read and decoded, opened for writing and
    written in full, and the four lines can be printed and flushed, the
    run exits with status 0, the file holds the text that was read (the
    file's characters with every CR LF and every lone CR turned into LF),
    written with the platform's line separator, and the output gains the
    four lines of the confirmation.  The file is as it was when it holds
    no CR and the line separator is LF. *)
Theorem no_anchor_text_written_back (m : Machine) (raw : str) :
  disk m = Chars raw ->
  re_search file_ref_pattern raw = None ->
  re_search group_pattern raw = None ->
  re_search sources_pattern raw = None ->
  write_denied m = false ->
  fits (write_room m)
       (length (write_newlines (linesep m) (universal_newlines raw))) = true ->
  fits (stdout_room m) 4 = true ->
  flush_fails m = false ->
  fst (process m) = Exit0
  /\ disk (snd (process m))
     = Chars (write_newlines (linesep m) (universal_newlines raw))
  /\ (has cr raw = false -> linesep m = [nl] ->
      disk (snd (process m)) = Chars raw)
  /\ printed (snd (process m))
     = printed m
       ++ [lit "Successfully added files to Xcode project:";
           lit "  - BlockedUsersManager.swift (" ++ new_id (draws m (used m))
             ++ lit ")";
           lit "  - BlockedUsersView.swift (" ++ new_id (draws m (1 + used m))
             ++ lit ")";
           lit "  - TermsOfService.swift (" ++ new_id (draws m (2 + used m))
             ++ lit ")"].
Proof.
  intros Hd H1 H2 H3 Hw Hr Hs Hf.
  destruct (no_anchor_read raw H1 H2 H3) as (T1 & T2 & T3).
  pose proof (patched_no_anchor (draws_world m) _ T1 T2 T3) as Hp.
  assert (Hrun : process m
                 = (Exit0,
                    set_stdout (room_left (stdout_room m) 4)
                               (printed m ++ confirmation (draws_world m))
                               (machine_written m raw))).
  { rewrite (process_done m raw Hd Hw); [rewrite Hf; reflexivity| |exact Hs].
    rewrite Hp. exact Hr. }
  rewrite Hrun. cbn [fst snd]. unfold set_stdout, machine_written, set_disk.
  cbn [disk printed]. rewrite Hp, confirmation_spelled.
  split; [reflexivity|]. split; [reflexivity|]. split; [|reflexivity].
  intros Hcr Hls. rewrite Hls, write_newlines_lf, universal_newlines_id;
    [reflexivity|exact Hcr].
Qed.

Lemma no_anchor_text_written_back_witness :
  fst (process (machine_of doc_plain)) = Exit0
  /\ disk (snd (process (machine_of doc_plain)))
     = Chars (write_newlines (linesep (machine_of doc_plain))
                (universal_newlines doc_plain))
  /\ (has cr doc_plain = false -> linesep (machine_of doc_plain) = [nl] ->
      disk (snd (process (machine_of doc_plain))) = Chars doc_plain)
  /\ printed (snd (process (machine_of doc_plain)))
     = printed (machine_of doc_plain)
       ++ [lit "Successfully added files to Xcode project:";
           lit "  - BlockedUsersManager.swift ("
             ++ new_id (draws (machine_of doc_plain)
                          (used (machine_of doc_plain)))
             ++ lit ")";
           lit "  - BlockedUsersView.swift ("
             ++ new_id (draws (machine_of doc_plain)
                          (1 + used (machine_of doc_plain)))
             ++ lit ")";
           lit "  - TermsOfService.swift ("
             ++ new_id (draws (machine_of doc_plain)
                          (2 + used (machine_of doc_plain)))
             ++ lit ")"].
Proof.
  apply (no_anchor_text_written_back (machine_of doc_plain) doc_plain);
    vm_compute; reflexivity.
Defined.





End ProcessClaims.

Section GeneratedIdentifiers.

Lemma new_id_well_formed (random : N) : well_formed_id (new_id random).
Proof. split; [apply new_id_length|apply new_id_upper_hex]. Qed.

Lemma jobs_from_combine (r : nat -> N) (files : list entry) :
  forall k, combine files (map snd (jobs_from r k files)) = jobs_from r k files.
Proof.
  induction files as [|e files IH]; intros k; [reflexivity|].
  cbn [jobs_from map snd combine]. rewrite IH. reflexivity.
Qed.

Lemma jobs_from_ids (r : nat -> N) (files : list entry) :
  forall k, length (map snd (jobs_from r k files)) = length files
            /\ Forall well_formed_id (map snd (jobs_from r k files)).
Proof.
  induction files as [|e files IH]; intros k; [split; [reflexivity|constructor]|].
  cbn [jobs_from map snd length]. destruct (IH (S k)) as [Hl Hf].
  split; [rewrite Hl; reflexivity|].
  constructor; [apply new_id_well_formed|exact Hf].
Qed.

(** The build identifiers a run on [d] draws: three when the build-phase
    anchor is found, none otherwise. *)
Definition build_ids_of (w : World) (d : str) : list str :=
  match re_search sources_pattern (before_sources w d) with
  | Some _ => map snd (jobs_of w)
  | None => []
  end.

Lemma patched_with_ids (w : World) (d : str) :
  patched w d = patched_with (files_of w) (build_ids_of w d) d.
Proof.
  unfold patched, patched_with, build_ids_of. cbv zeta.
  fold (before_sources w d).
  destruct (re_search sources_pattern (before_sources w d)); [|reflexivity].
  unfold jobs_of. rewrite jobs_from_combine. reflexivity.
Qed.

Lemma build_ids_of_drawn (w : World) (d : str) :
  draws_made w d = 3 + length (build_ids_of w d)
  /\ Forall well_formed_id (build_ids_of w d).
Proof.
  unfold draws_made, build_ids_of.
  destruct (re_search sources_pattern (before_sources w d));
    [|split; [reflexivity|constructor]].
  unfold jobs_of. destruct (jobs_from_ids (urandom w) (files_of w) (3 + drawn w))
    as [Hl Hf].
  split; [rewrite Hl; reflexivity|exact Hf].
Qed.

(** C6. Every identifier the program generates is 24 characters long and
    consists of the characters 0-9 and A-F only: the identifier of every
    evaluation of [str(uuid.uuid4()).replace('-', '').upper()[:24]]; the
    three identifiers of the entries that lines 10-14 build; the build
    identifier that line 51 draws for each entry of the loop, with which
    the loop builds its lines; and so the identifiers of a whole run, in
    the lines it prints and in the text it writes. *)
Theorem generated_identifiers_well_formed :
  (forall w, exists id w', fresh_id w = (Ok id, w') /\ well_formed_id id)
  /\ (forall w, exists id1 id2 id3 w',
        files_to_add_gen w
        = (Ok [(lit "BlockedUsersManager.swift", id1);
               (lit "BlockedUsersView.swift", id2);
               (lit "TermsOfService.swift", id3)], w')
        /\ well_formed_id id1 /\ well_formed_id id2 /\ well_formed_id id3)
  /\ (forall w files content refs, exists build_ids w',
        build_loop files content refs w
        = (Ok (loop_content (combine files build_ids) content,
               refs ++ loop_refs (combine files build_ids)), w')
        /\ length build_ids = length files
        /\ Forall well_formed_id build_ids)
  /\ (forall m raw, disk m = Chars raw -> fst (process m) = Exit0 ->
        exists id1 id2 id3 build_ids,
          let files := [(lit "BlockedUsersManager.swift", id1);
                        (lit "BlockedUsersView.swift", id2);
                        (lit "TermsOfService.swift", id3)] in
          well_formed_id id1 /\ well_formed_id id2 /\ well_formed_id id3
          /\ Forall well_formed_id build_ids
          /\ used (snd (process m)) = 3 + length build_ids + used m
          /\ printed (snd (process m))
             = printed m
               ++ [lit "Successfully added files to Xcode project:";
                   lit "  - BlockedUsersManager.swift (" ++ id1 ++ lit ")";
                   lit "  - BlockedUsersView.swift (" ++ id2 ++ lit ")";
                   lit "  - TermsOfService.swift (" ++ id3 ++ lit ")"]
          /\ disk (snd (process m))
             = Chars (write_newlines (linesep m)
                        (patched_with files build_ids
                                      (universal_newlines raw)))).
Proof.
  split; [|split; [|split]].
  - intros w. unfold fresh_id. eexists _, _. split; [reflexivity|].
    apply new_id_well_formed.
  - intros w. rewrite files_to_add_gen_run. unfold files_of, draw.
    eexists _, _, _, _. split; [reflexivity|].
    repeat split; apply new_id_well_formed.
  - intros w files content refs. rewrite build_loop_run.
    exists (map snd (jobs_from (urandom w) (drawn w) files)). eexists.
    rewrite jobs_from_combine. split; [reflexivity|]. apply jobs_from_ids.
  - intros m raw Hd H.
    destruct (process_exit0_run m raw Hd H) as (Hdisk & Hprinted & Hused).
    set (w := draws_world m) in *. set (t := universal_newlines raw) in *.
    destruct (build_ids_of_drawn w t) as [Hn Hwf].
    exists (draw w 0), (draw w 1), (draw w 2), (build_ids_of w t). cbv zeta.
    rewrite <- confirmation_line_spelled.
    change [(lit "BlockedUsersManager.swift", draw w 0);
            (lit "BlockedUsersView.swift", draw w 1);
            (lit "TermsOfService.swift", draw w 2)] with (files_of w).
    split; [apply new_id_well_formed|]. split; [apply new_id_well_formed|].
    split; [apply new_id_well_formed|]. split; [exact Hwf|].
    split; [rewrite Hused, Hn; reflexivity|]. split; [exact Hprinted|].
    rewrite Hdisk, patched_with_ids. reflexivity.
Qed.

Lemma generated_identifiers_well_formed_witness :
  exists id1 id2 id3 build_ids,
    let files := [(lit "BlockedUsersManager.swift", id1);
                  (lit "BlockedUsersView.swift", id2);
                  (lit "TermsOfService.swift", id3)] in
    well_formed_id id1 /\ well_formed_id id2 /\ well_formed_id id3
    /\ Forall well_formed_id build_ids
    /\ used (snd (process (machine_of doc_full)))
       = 3 + length build_ids + used (machine_of doc_full)
    /\ printed (snd (process (machine_of doc_full)))
       = printed (machine_of doc_full)
         ++ [lit "Successfully added files to Xcode project:";
             lit "  - BlockedUsersManager.swift (" ++ id1 ++ lit ")";
             lit "  - BlockedUsersView.swift (" ++ id2 ++ lit ")";
             lit "  - TermsOfService.swift (" ++ id3 ++ lit ")"]
    /\ disk (snd (process (machine_of doc_full)))
       = Chars (write_newlines (linesep (machine_of doc_full))
                  (patched_with files build_ids
                                (universal_newlines doc_full))).
Proof.
  apply (proj2 (proj2 (proj2 generated_identifiers_well_formed))
           (machine_of doc_full) doc_full); vm_compute; reflexivity.
Defined.

End GeneratedIdentifiers.

(** * Further properties of the process *)

Section ProcessFurther.

Lemma process_exit0_linesep (m : Machine) (raw : str) :
  disk m = Chars raw -> fst (process m) = Exit0 ->
  linesep (snd (process m)) = linesep m.
Proof.
  intros Hd H. destruct (process_exit0 m raw Hd H) as (Hw & Hr & Hs & _).
  rewrite (process_done m raw Hd Hw Hr Hs). reflexivity.
Qed.

(** X6. With the three anchors and the section header in the file, every
    step finds its anchor in the text as the earlier steps left it: the
    reference step in the text read, the group step behind it, the
    build-phase step behind that, and every round of the loop finds the
    section header where the first round found it.  A run that exits
    with status 0 leaves the text read with the four blocks inserted at
    the ends of these matches, twelve new lines in all. *)
Theorem all_anchors_all_insertions (m : Machine) (raw : str) :
  disk m = Chars raw ->
  re_search file_ref_pattern raw <> None ->
  re_search group_pattern raw <> None ->
  re_search sources_pattern raw <> None ->
  re_search build_file_pattern raw <> None ->
  fst (process m) = Exit0 ->
  let t := universal_newlines raw in
  let w := draws_world m in
  exists m1 m2 m3 hm,
    re_search file_ref_pattern t = Some m1
    /\ let c1 := insert_at (m_end m1) (file_refs_block (files_of w)) t in
       re_search group_pattern c1 = Some m2
    /\ let c2 := insert_at (m_end m2) (group_refs_block (files_of w)) c1 in
       re_search sources_pattern c2 = Some m3
    /\ (forall k, re_search build_file_pattern
                    (loop_content (take k (jobs_of w)) c2) = Some hm)
    /\ let c3 := insert_at (m_end hm) (build_file_blocks (jobs_of w)) c2 in
       let c4 := insert_at (m_end m3) (sources_block (jobs_of w)) c3 in
       disk (snd (process m)) = Chars (write_newlines (linesep m) c4)
    /\ length (files_of w) = 3 /\ length (jobs_of w) = 3
    /\ count nl c4 = count nl t + 12.
Proof.
  intros Hd R1 R2 R3 R4 Hexit. cbv zeta.
  destruct (process_exit0_run m raw Hd Hexit) as (Hdisk & _).
  destruct (anchors_read raw) as (A1 & A2 & A3 & A4).
  specialize (A1 R1). specialize (A2 R2). specialize (A3 R3).
  specialize (A4 R4).
  set (t := universal_newlines raw) in *. set (w := draws_world m) in *.
  destruct (re_search file_ref_pattern t) as [m1|] eqn:E1; [|congruence].
  set (c1 := insert_at (m_end m1) (file_refs_block (files_of w)) t).
  assert (Hc1 : add_file_refs (files_of w) t = c1).
  { unfold add_file_refs. rewrite E1. reflexivity. }
  assert (G : re_search group_pattern c1 <> None).
  { rewrite <- Hc1, group_pattern_shape.
    apply add_file_refs_keeps; [discriminate|reflexivity|].
    rewrite <- group_pattern_shape. exact A2. }
  destruct (re_search group_pattern c1) as [m2|] eqn:E2; [|congruence].
  set (c2 := insert_at (m_end m2) (group_refs_block (files_of w)) c1).
  assert (Hc2 : before_sources w t = c2).
  { unfold before_sources, add_group_refs. rewrite Hc1, E2. reflexivity. }
  assert (S : re_search sources_pattern c2 <> None).
  { rewrite <- Hc2, sources_pattern_shape.
    apply before_sources_keeps; [discriminate|reflexivity|reflexivity|].
    rewrite <- sources_pattern_shape. exact A3. }
  assert (B : re_search build_file_pattern c2 <> None).
  { rewrite <- Hc2, build_file_pattern_shape.
    apply before_sources_keeps; [discriminate|reflexivity|reflexivity|].
    rewrite <- build_file_pattern_shape. exact A4. }
  destruct (re_search sources_pattern c2) as [m3|] eqn:E3; [|congruence].
  destruct (re_search build_file_pattern c2) as [hm|] eqn:E4; [|congruence].
  exists m1, m2, m3, hm.
  split; [reflexivity|]. split; [exact E2|]. split; [exact E3|].
  split; [intros k; apply (loop_content_found _ c2 hm E4)|].
  assert (Hout : patched w t
                 = insert_at (m_end m3) (sources_block (jobs_of w))
                     (insert_at (m_end hm) (build_file_blocks (jobs_of w)) c2)).
  { unfold patched. rewrite Hc2, E3.
    destruct (loop_content_found (jobs_of w) c2 hm E4) as [-> _]. reflexivity. }
  split; [rewrite Hdisk, Hout; reflexivity|].
  split; [reflexivity|]. split; [apply jobs_of_length|].
  unfold c2, c1. rewrite !count_insert_at.
  rewrite count_nl_sources_block, count_nl_group_refs_block,
    count_nl_file_refs_block.
  rewrite count_nl_build_file_blocks by (apply (jobs_of_plain nl); auto).
  rewrite jobs_of_length. lia.
Qed.

Lemma all_anchors_all_insertions_witness :
  let t := universal_newlines doc_full in
  let w := draws_world (machine_of doc_full) in
  exists m1 m2 m3 hm,
    re_search file_ref_pattern t = Some m1
    /\ let c1 := insert_at (m_end m1) (file_refs_block (files_of w)) t in
       re_search group_pattern c1 = Some m2
    /\ let c2 := insert_at (m_end m2) (group_refs_block (files_of w)) c1 in
       re_search sources_pattern c2 = Some m3
    /\ (forall k, re_search build_file_pattern
                    (loop_content (take k (jobs_of w)) c2) = Some hm)
    /\ let c3 := insert_at (m_end hm) (build_file_blocks (jobs_of w)) c2 in
       let c4 := insert_at (m_end m3) (sources_block (jobs_of w)) c3 in
       disk (snd (process (machine_of doc_full)))
       = Chars (write_newlines (linesep (machine_of doc_full)) c4)
    /\ length (files_of w) = 3 /\ length (jobs_of w) = 3
    /\ count nl c4 = count nl t + 12.
Proof.
  apply (all_anchors_all_insertions (machine_of doc_full) doc_full);
    try reflexivity; vm_compute; congruence.
Defined.

(** X8. Running the script a second time on its own output is not a
    no-op: when the file holds the build-phase anchor and both runs exit
    with status 0, the second run reads the text the first one wrote
    (with LF or CR LF as the line separator), finds the anchor again and
    inserts again: each run hands a longer text to [write], of which the
    text it read is a subsequence. *)
Theorem second_run_inserts_again (m : Machine) (raw : str) :
  disk m = Chars raw ->
  re_search sources_pattern raw <> None ->
  linesep m = [nl] \/ linesep m = [cr; nl] ->
  fst (process m) = Exit0 ->
  fst (process (snd (process m))) = Exit0 ->
  exists t1 t2,
    disk (snd (process m)) = Chars (write_newlines (linesep m) t1)
    /\ disk (snd (process (snd (process m))))
       = Chars (write_newlines (linesep m) t2)
    /\ universal_newlines (write_newlines (linesep m) t1) = t1
    /\ re_search sources_pattern t1 <> None
    /\ sublist (universal_newlines raw) t1 /\ sublist t1 t2
    /\ length (universal_newlines raw) < length t1 /\ length t1 < length t2.
Proof.
  intros Hd R3 Hls H1 H2.
  destruct (process_exit0_run m raw Hd H1) as (Hdisk1 & _).
  pose proof (process_exit0_linesep m raw Hd H1) as Hls1.
  destruct (anchors_read raw) as (_ & _ & A3 & _). specialize (A3 R3).
  set (t := universal_newlines raw) in *.
  set (t1 := patched (draws_world m) t) in *.
  set (m' := snd (process m)) in *.
  assert (Hcr : has cr t1 = false)
    by (apply patched_no_cr, universal_newlines_no_cr).
  pose proof (read_back (linesep m) t1 Hls Hcr) as Hback.
  destruct (process_exit0_run m' _ Hdisk1 H2) as (Hdisk2 & _).
  rewrite Hls1, Hback in Hdisk2.
  pose proof (patched_keeps_sources (draws_world m) t A3) as Hkeep.
  fold t1 in Hkeep.
  exists t1, (patched (draws_world m') t1).
  split; [exact Hdisk1|]. split; [exact Hdisk2|]. split; [exact Hback|].
  split; [exact Hkeep|].
  split; [apply patched_sublist|]. split; [apply patched_sublist|].
  split; [apply patched_grows, A3|apply patched_grows, Hkeep].
Qed.

Lemma second_run_inserts_again_witness :
  exists t1 t2,
    disk (snd (process (machine_of doc_full)))
    = Chars (write_newlines (linesep (machine_of doc_full)) t1)
    /\ disk (snd (process (snd (process (machine_of doc_full)))))
       = Chars (write_newlines (linesep (machine_of doc_full)) t2)
    /\ universal_newlines (write_newlines (linesep (machine_of doc_full)) t1)
       = t1
    /\ re_search sources_pattern t1 <> None
    /\ sublist (universal_newlines doc_full) t1 /\ sublist t1 t2
    /\ length (universal_newlines doc_full) < length t1
    /\ length t1 < length t2.
Proof.
  apply (second_run_inserts_again (machine_of doc_full) doc_full);
    try reflexivity.
  - vm_compute. congruence.
  - left. reflexivity.
Defined.




End ProcessFurther.
